(** * El Pais scraper: word-frequency analysis and headline translation

    A shallow embedding of [src/analyzer.py] (class [WordAnalyzer]), of
    [src/translator.py] (class [ArticleTranslator]), of the text helpers of
    [src/utils.py] and of the page-reading part of [src/scraper.py] (class
    [ElPaisScraper]), with their properties established on the embedding.

    Conventions of the model.
    - A Python [str] is a [string]; its characters are the code points
      0..255, classified as the Unicode database classifies the Basic Latin
      and Latin-1 Supplement blocks.  Module [Wide] models the analysis a
      second time over texts that may also hold the three letters outside
      that range whose partner in the other case is an ASCII letter.
    - A Python [int] is a [Z].
    - A [dict] (and a [Counter]) is an association list in insertion order.
    - The logging calls and [time.sleep] have no effect on the values
      computed and are left out.
    - The translation service and the browser driver are outside the
      program: a call to them is given by what it answers, a value or an
      exception. *)

From Stdlib Require Import Bool Arith List ZArith NArith Lia.
From Stdlib Require Import Ascii String.
From Stdlib Require Import Permutation DecimalString.
Import ListNotations.

Open Scope string_scope.
Open Scope list_scope.

(** ** Characters *)

Definition code (c : ascii) : N := N_of_ascii c.

Definition between (lo hi : N) (c : ascii) : bool :=
  (N.leb lo (code c) && N.leb (code c) hi)%bool.

(** The character class [[a-z]] of the pattern. *)
Definition is_az (c : ascii) : bool := between 97 122 c.

(** Code points that [str.lower] maps to another code point: [A-Z] and the
    capital letters of Latin-1 (U+00C0..U+00DE without the sign U+00D7). *)
Definition is_upper (c : ascii) : bool :=
  (between 65 90 c
   || (between 192 222 c && negb (N.eqb (code c) 215)))%bool.

Definition char_lower (c : ascii) : ascii :=
  if is_upper c then ascii_of_N (code c + 32) else c.

(** [str.isalnum] on one code point: letters, decimal digits, and the
    characters with a digit or numeric value. *)
Definition is_alnum (c : ascii) : bool :=
  (between 48 57 c || between 65 90 c || between 97 122 c
   || N.eqb (code c) 170 || between 178 179 c || N.eqb (code c) 181
   || between 185 186 c || between 188 190 c
   || between 192 214 c || between 216 246 c || between 248 255 c)%bool.

(** The class [\w] of [re] on [str] patterns: alphanumeric or underscore. *)
Definition is_word (c : ascii) : bool :=
  (is_alnum c || N.eqb (code c) 95)%bool.

(** ** Strings *)

(** [str.lower] *)
Fixpoint lower (s : string) : string :=
  match s with
  | EmptyString => EmptyString
  | String c s' => String (char_lower c) (lower s')
  end.

Definition first_char (s : string) : option ascii :=
  match s with
  | EmptyString => None
  | String c _ => Some c
  end.

(** ** The pattern [\b[a-z]+\b] *)

Definition is_word_at (o : option ascii) : bool :=
  match o with
  | None => false
  | Some c => is_word c
  end.

(** [\b] between the character before the position and the character at
    it: exactly one of the two is a word character; outside the string
    there are none. *)
Definition word_boundary (prev next : option ascii) : bool :=
  xorb (is_word_at prev) (is_word_at next).

(** [cls+] followed by the rest of the pattern [k]: greedy, one or more
    characters of the class; the longest repetition is tried first and the
    matcher backs off one character at a time until [k] accepts the
    position reached.  Returns the text matched and the text left. *)
Fixpoint greedy_plus (cls : ascii -> bool)
    (k : option ascii -> string -> bool) (s : string)
    : option (string * string) :=
  match s with
  | EmptyString => None
  | String c s' =>
      if cls c then
        match greedy_plus cls k s' with
        | Some (m, r) => Some (String c m, r)
        | None => if k (Some c) s' then Some (String c EmptyString, s') else None
        end
      else None
  end.

(** One attempt to match [\b[a-z]+\b] at a position, [prev] being the
    character before it. *)
Definition match_here (prev : option ascii) (s : string)
    : option (string * string) :=
  if word_boundary prev (first_char s) then
    greedy_plus is_az (fun p r => word_boundary p (first_char r)) s
  else None.

Fixpoint last_char (prev : option ascii) (s : string) : option ascii :=
  match s with
  | EmptyString => prev
  | String c s' => last_char (Some c) s'
  end.

(** The scan of [re.findall]: try the pattern at the current position; on
    success record the match and go on behind it, otherwise move one
    character to the right.  Every round consumes a character or ends the
    scan, so [S (length s)] rounds are enough. *)
Fixpoint findall_from (fuel : nat) (prev : option ascii) (s : string)
    : list string :=
  match fuel with
  | O => []
  | S fuel' =>
      match match_here prev s with
      | Some (m, r) => m :: findall_from fuel' (last_char prev m) r
      | None =>
          match s with
          | EmptyString => []
          | String c s' => findall_from fuel' (Some c) s'
          end
      end
  end.

(** [re.findall(r'\b[a-z]+\b', s)] *)
Definition findall (s : string) : list string :=
  findall_from (S (String.length s)) None s.

(** ** Dictionaries *)

Definition table := list (string * Z).

(** [d.get(w)] *)
Fixpoint dict_get (w : string) (d : table) : option Z :=
  match d with
  | [] => None
  | (k, v) :: d' => if String.eqb k w then Some v else dict_get w d'
  end.

(** [d[w] = v]: an existing key keeps its place, a new key goes last. *)
Fixpoint dict_set (w : string) (v : Z) (d : table) : table :=
  match d with
  | [] => [(w, v)]
  | (k, x) :: d' =>
      if String.eqb k w then (k, v) :: d' else (k, x) :: dict_set w v d'
  end.

(** [dict(pairs)] and the dict comprehension: the pairs are stored one
    after the other. *)
Definition dict_of_items (items : list (string * Z)) : table :=
  fold_left (fun d kv => dict_set (fst kv) (snd kv) d) items [].

Definition keys (d : table) : list string := map fst d.

(** [Counter(words)]: [c[w] = c.get(w, 0) + 1] for every word in turn. *)
Definition counter_add (d : table) (w : string) : table :=
  dict_set w (match dict_get w d with Some n => n | None => 0 end + 1)%Z d.

Definition Counter (words : list string) : table :=
  fold_left counter_add words [].

(** [c[w]] on a [Counter]: a missing key counts 0. *)
Definition counter_get (w : string) (d : table) : Z :=
  match dict_get w d with
  | Some n => n
  | None => 0%Z
  end.

(** ** [WordAnalyzer] *)

Module WordAnalyzer.

Record t := { min_occurrences : Z }.

Definition default_min_occurrences : Z := 3.

(** [__init__(self, min_occurrences=3)] *)
Definition init (arg : option Z) : t :=
  {| min_occurrences :=
       match arg with
       | Some n => n
       | None => default_min_occurrences
       end |}.

(** The words of one header: lines 42-48 of [count_words]. *)
Definition header_words (header : string) : list string :=
  let header_lower := lower header in
  let words := findall header_lower in
  filter (fun word => Nat.ltb 2 (String.length word)) words.

(** The list [all_words] after the loop over the headers. *)
Definition all_words (headers : list string) : list string :=
  fold_left (fun acc header => acc ++ header_words header) headers [].

Definition count_words (headers : list string) : table :=
  Counter (all_words headers).

Definition filter_repeated_words (self : t) (word_counts : table) : table :=
  dict_of_items
    (filter (fun wc => Z.geb (snd wc) (min_occurrences self)) word_counts).

(** [sorted(items, key=lambda x: x[1], reverse=True)]: a stable sort on
    the counts, largest first; items with equal counts keep their order. *)
Fixpoint insert_desc (p : string * Z) (l : list (string * Z))
    : list (string * Z) :=
  match l with
  | [] => [p]
  | q :: l' =>
      if Z.ltb (snd p) (snd q) then q :: insert_desc p l' else p :: q :: l'
  end.

Definition sorted_desc (l : list (string * Z)) : list (string * Z) :=
  fold_right insert_desc [] l.

Definition analyze_headers (self : t) (translated_headers : list string)
    : table :=
  let word_counts := count_words translated_headers in
  let repeated_words := filter_repeated_words self word_counts in
  dict_of_items (sorted_desc repeated_words).

(** [s * n] *)
Fixpoint repeat_string (s : string) (n : nat) : string :=
  match n with
  | O => EmptyString
  | S n' => (s ++ repeat_string s n')%string
  end.

(** The format [{s:<width}]: blanks are added on the right until the
    text has [width] characters; a longer text is left as it is. *)
Definition ljust (width : nat) (s : string) : string :=
  (s ++ repeat_string " " (width - String.length s))%string.

(** The format [{s:>width}]: the same with the blanks on the left. *)
Definition rjust (width : nat) (s : string) : string :=
  (repeat_string " " (width - String.length s) ++ s)%string.

(** [str(n)]: the decimal numeral of an integer. *)
Definition str_of_int (n : Z) : string :=
  NilZero.string_of_int (Z.to_int n).


(** A row of the table: [f"{word:<20} {count:>10}"]. *)
Definition table_row (wc : string * Z) : string :=
  (ljust 20 (fst wc) ++ " " ++ rjust 10 (str_of_int (snd wc)))%string.


End WordAnalyzer.

(** Calling [filter_repeated_words] as the caller sees it.  The body has no
    [raise] statement and compares [count >= self.min_occurrences] on
    integers, so every call returns. *)
Inductive error : Type :=
  | InvalidConfiguration.

Inductive outcome (A : Type) : Type :=
  | Returned (a : A)
  | Raised (e : error).

Arguments Returned {A} a.
Arguments Raised {A} e.

Definition call_filter_repeated_words (self : WordAnalyzer.t)
    (word_counts : table) : outcome table :=
  Returned (WordAnalyzer.filter_repeated_words self word_counts).

(** ** Runs of letters, stated without the matcher *)

(** [scan_runs sep left_ok run s] reads [s] from left to right.  [run] is
    the run of [a-z] read so far, [left_ok] tells whether the character
    before that run is accepted by [sep].  When the run ends (at a
    character outside [a-z], or at the end of the string) it is listed if
    it is not empty and [sep] accepts the characters on both sides. *)
Fixpoint scan_runs (sep : option ascii -> bool) (left_ok : bool)
    (run : string) (s : string) : list string :=
  match s with
  | EmptyString =>
      if (negb (String.eqb run "") && left_ok && sep None)%bool
      then [run] else []
  | String c s' =>
      if is_az c then scan_runs sep left_ok (run ++ String c "")%string s'
      else
        (if (negb (String.eqb run "") && left_ok && sep (Some c))%bool
         then [run] else [])
        ++ scan_runs sep (sep (Some c)) "" s'
  end.

(** The maximal runs of [a-z] in [s] whose two neighbours (a character, or
    [None] at an edge of the string) are accepted by [sep]. *)
Definition bounded_runs (sep : option ascii -> bool) (s : string)
    : list string :=
  scan_runs sep (sep None) "" s.

(** A neighbour that is not a letter [a-z]: every maximal run has such
    neighbours. *)
Definition not_letter (o : option ascii) : bool :=
  match o with
  | None => true
  | Some c => negb (is_az c)
  end.

(** A neighbour that is not a word character. *)
Definition not_word (o : option ascii) : bool := negb (is_word_at o).

Definition long_enough (word : string) : bool :=
  Nat.ltb 2 (String.length word).

(** The normalizer as the specification words it: lowercase, take the
    maximal runs of lowercase letters (bounded by non-letters or the string
    edges), drop the runs of length at most 2. *)
Definition spec_normalize (s : string) : list string :=
  filter long_enough (bounded_runs not_letter (lower s)).

(** The same with runs that must be bounded by non-word characters. *)
Definition word_bounded_normalize (s : string) : list string :=
  filter long_enough (bounded_runs not_word (lower s)).

Fixpoint all_chars (p : ascii -> bool) (s : string) : bool :=
  match s with
  | EmptyString => true
  | String c s' => (p c && all_chars p s')%bool
  end.

(** [t] occurs in [s] as a maximal run of letters whose two neighbours are
    accepted by [sep]: [s] is [pre ++ t ++ post], [t] is a non-empty string
    of letters, and the last character of [pre] and the first of [post]
    (or the string edge) are no letters and are accepted by [sep]. *)
Definition bounded_run_of (sep : option ascii -> bool) (s t : string)
    : Prop :=
  exists pre post,
    s = (pre ++ t ++ post)%string
    /\ t <> "" /\ all_chars is_az t = true
    /\ not_letter (last_char None pre) = true
    /\ sep (last_char None pre) = true
    /\ not_letter (first_char post) = true
    /\ sep (first_char post) = true.

(** The two ways in which [scan_runs sep left_ok run s] lists [t]: as the
    run it is reading, completed by a prefix of [s]; or as a run that lies
    further to the right in [s]. *)
Definition run_here (sep : option ascii -> bool) (left_ok : bool)
    (run s t : string) : Prop :=
  exists r post,
    s = (r ++ post)%string /\ t = (run ++ r)%string
    /\ t <> "" /\ all_chars is_az r = true
    /\ not_letter (first_char post) = true
    /\ left_ok = true /\ sep (first_char post) = true.

Definition run_later (sep : option ascii -> bool) (s t : string) : Prop :=
  exists pre post,
    s = (pre ++ t ++ post)%string /\ pre <> ""
    /\ t <> "" /\ all_chars is_az t = true
    /\ not_letter (last_char None pre) = true
    /\ sep (last_char None pre) = true
    /\ not_letter (first_char post) = true
    /\ sep (first_char post) = true.

Definition is_punctuation_or_digit (c : ascii) : bool :=
  (between 33 64 c || between 91 96 c || between 123 126 c)%bool.

(** ** Auxiliary notions for the statements *)

(** Position of the first occurrence of [w] in [l] ([length l] when [w]
    does not occur). *)
Fixpoint first_index (w : string) (l : list string) : nat :=
  match l with
  | [] => O
  | x :: l' => if String.eqb x w then O else S (first_index w l')
  end.

(** The distinct words of [l] in the order of their first occurrence. *)
Fixpoint first_seen (l : list string) : list string :=
  match l with
  | [] => []
  | w :: l' => w :: filter (fun x => negb (String.eqb w x)) (first_seen l')
  end.

(** The largest count of a table (0 for the empty table). *)
Definition max_count (d : table) : Z :=
  fold_right (fun wc m => Z.max (snd wc) m) 0%Z d.

(** The sum of the counts of a table. *)
Definition total_count (d : table) : Z :=
  fold_right (fun wc n => (snd wc + n)%Z) 0%Z d.

(** Counts listed largest first. *)
Fixpoint descending (l : list (string * Z)) : Prop :=
  match l with
  | [] => True
  | p :: l' => (forall q, In q l' -> (snd q <= snd p)%Z) /\ descending l'
  end.

(** ** [ArticleTranslator] *)

Module ArticleTranslator.

(** The object holds the client of the translation service and the two
    language codes.  A call [translator.translate(text, src, dest)] is a
    function of the service's state: it gives the next state and either the
    translated text or [None] when the call raised an exception. *)
Record t (St : Type) := {
  translator : St -> string -> string -> string -> St * option string;
  source_lang : string;
  target_lang : string
}.

Arguments translator {St} _ _ _ _ _.
Arguments source_lang {St} _.
Arguments target_lang {St} _.

(** The loop [for attempt in range(retry_count)] of [translate_text]. *)
Fixpoint attempt_loop {St : Type} (self : t St) (text : string)
    (retry_count : nat) (attempts : list nat) (st : St) : St * string :=
  match attempts with
  | [] => (st, text)
  | attempt :: rest =>
      match translator self st text (source_lang self) (target_lang self) with
      | (st', Some translated) => (st', translated)
      | (st', None) =>
          if Nat.ltb attempt (retry_count - 1)
          then attempt_loop self text retry_count rest st'
          else (st', text)
      end
  end.

Definition translate_text {St : Type} (self : t St) (text : string)
    (retry_count : nat) (st : St) : St * string :=
  if String.eqb text "" then (st, "")
  else attempt_loop self text retry_count (seq 0 retry_count) st.

Definition default_retry_count : nat := 3.

(** One round of the loop of [translate_titles]: translate the title and
    append the result to [translated_titles]. *)
Definition title_step {St : Type} (self : t St) (acc : St * list string)
    (title : string) : St * list string :=
  let (st', translated) :=
    translate_text self title default_retry_count (fst acc) in
  (st', snd acc ++ [translated]).

Definition translate_titles {St : Type} (self : t St) (titles : list string)
    (st : St) : St * list string :=
  fold_left (title_step self) titles (st, []).

(** The next [n] calls of the service for [text] all raise. *)
Fixpoint calls_fail {St : Type} (self : t St) (text : string) (n : nat)
    (st : St) : bool :=
  match n with
  | O => true
  | S n' =>
      match translator self st text (source_lang self) (target_lang self) with
      | (st', None) => calls_fail self text n' st'
      | (_, Some _) => false
      end
  end.

(** A service that raises at every call. *)
Definition unreachable : t nat :=
  {| translator := fun n _ _ _ => (S n, None);
     source_lang := "es";
     target_lang := "en" |}.

(** A service for the examples: the state counts the calls made; the calls
    numbered below [broken] raise, the later ones answer with the text
    in brackets. *)
Definition flaky (broken : nat) : t nat :=
  {| translator := fun n text _ _ =>
       (S n, if Nat.ltb n broken then None else Some ("[" ++ text ++ "]")%string);
     source_lang := "es";
     target_lang := "en" |}.

(** An article as [get_translated_headers] reads it: a dictionary from
    field names to texts. *)
Definition article := list (string * string).

(** [d.get(key, default)] *)
Fixpoint get_field (key default : string) (d : article) : string :=
  match d with
  | [] => default
  | (k, v) :: d' => if String.eqb k key then v else get_field key default d'
  end.

(** An entry of the list that [get_translated_headers] returns. *)
Record translation := {
  original : string;
  translated : string
}.

(** One round of the loop of [get_translated_headers]. *)
Definition header_step {St : Type} (self : t St)
    (acc : St * list translation) (art : article) : St * list translation :=
  let title := get_field "title" "" art in
  let (st', translated_title) :=
    translate_text self title default_retry_count (fst acc) in
  (st', snd acc ++ [{| original := title; translated := translated_title |}]).

Definition get_translated_headers {St : Type} (self : t St)
    (articles : list article) (st : St) : St * list translation :=
  fold_left (header_step self) articles (st, []).

(** Calling the service for [text] until it answers, [n] times at most:
    the state reached and the answer, if any. *)
Fixpoint first_answer {St : Type} (self : t St) (text : string) (n : nat)
    (st : St) : St * option string :=
  match n with
  | O => (st, None)
  | S n' =>
      match translator self st text (source_lang self) (target_lang self) with
      | (st', Some translated) => (st', Some translated)
      | (st', None) => first_answer self text n' st'
      end
  end.

End ArticleTranslator.

(** ** [src/utils.py] *)

Module Utils.

Fixpoint take (n : nat) (s : string) : string :=
  match n, s with
  | S n', String c s' => String c (take n' s')
  | _, _ => EmptyString
  end.

(** The slice [s[:n]]: a negative [n] counts from the end of the string. *)
Definition slice_to (n : Z) (s : string) : string :=
  if Z.leb 0 n then take (Z.to_nat n) s
  else take (Z.to_nat (Z.of_nat (String.length s) + n)) s.

Definition default_truncate_length : Z := 200.

Definition truncate_text (text : string) (max_length : Z) : string :=
  if Z.leb (Z.of_nat (String.length text)) max_length then text
  else (slice_to max_length text ++ "...")%string.

(** One attempt to match a pattern that is a single character class. *)
Definition match_class (cls : ascii -> bool) (s : string)
    : option (string * string) :=
  match s with
  | EmptyString => None
  | String c s' => if cls c then Some (String c EmptyString, s') else None
  end.

(** The scan of [re.sub]: where the pattern matches, the replacement is
    written and the scan goes on behind the match; otherwise the character
    is copied.  [match_at] never matches the empty string here. *)
Fixpoint sub_from (fuel : nat) (match_at : string -> option (string * string))
    (repl : string) (s : string) : string :=
  match fuel with
  | O => EmptyString
  | S fuel' =>
      match match_at s with
      | Some (_, r) => (repl ++ sub_from fuel' match_at repl r)%string
      | None =>
          match s with
          | EmptyString => EmptyString
          | String c s' => String c (sub_from fuel' match_at repl s')
          end
      end
  end.

Definition re_sub (match_at : string -> option (string * string))
    (repl : string) (s : string) : string :=
  sub_from (S (String.length s)) match_at repl s.

(** The class of the characters that are removed: less-than, greater-than,
    colon, double quote, slash, backslash, bar, question mark, star. *)
Definition is_invalid_char (c : ascii) : bool :=
  (N.eqb (code c) 60 || N.eqb (code c) 62 || N.eqb (code c) 58
   || N.eqb (code c) 34 || N.eqb (code c) 47 || N.eqb (code c) 92
   || N.eqb (code c) 124 || N.eqb (code c) 63 || N.eqb (code c) 42)%bool.

Definition is_underscore (c : ascii) : bool := N.eqb (code c) 95.

Definition is_blank (c : ascii) : bool := N.eqb (code c) 32.

(** [s.replace(old, new)] for one-character [old] and [new]. *)
Fixpoint replace_char (old new : ascii) (s : string) : string :=
  match s with
  | EmptyString => EmptyString
  | String c s' =>
      String (if Ascii.eqb c old then new else c) (replace_char old new s')
  end.

Fixpoint lstrip (p : ascii -> bool) (s : string) : string :=
  match s with
  | EmptyString => EmptyString
  | String c s' => if p c then lstrip p s' else s
  end.

Fixpoint rstrip (p : ascii -> bool) (s : string) : string :=
  match s with
  | EmptyString => EmptyString
  | String c s' =>
      match rstrip p s' with
      | EmptyString => if p c then EmptyString else String c EmptyString
      | r => String c r
      end
  end.

(** [s.strip(chars)] *)
Definition strip (p : ascii -> bool) (s : string) : string :=
  lstrip p (rstrip p s).

Definition default_filename_length : Z := 100.

Definition sanitize_filename (text : string) (max_length : Z) : string :=
  let filename := re_sub (match_class is_invalid_char) "" text in
  let filename := replace_char " " "_" filename in
  let filename :=
    re_sub (greedy_plus is_underscore (fun _ _ => true)) "_" filename in
  let filename := slice_to max_length filename in
  strip is_underscore filename.

Definition is_underscore_at (o : option ascii) : bool :=
  match o with
  | None => false
  | Some c => is_underscore c
  end.

(** No two underscores side by side. *)
Fixpoint no_double_underscore (s : string) : bool :=
  match s with
  | EmptyString => true
  | String c s' =>
      (negb (is_underscore c && is_underscore_at (first_char s'))
       && no_double_underscore s')%bool
  end.

(** The character [o] exists and is of the class [p]. *)
Definition char_is (p : ascii -> bool) (o : option ascii) : bool :=
  match o with
  | None => false
  | Some c => p c
  end.

(** A character that [sanitize_filename] lets through as it is. *)
Definition is_clean_char (c : ascii) : bool :=
  (negb (is_invalid_char c) && negb (is_blank c))%bool.

End Utils.

(** ** [src/scraper.py] *)

Module ElPaisScraper.

(** The outcome of a call to the browser driver: a value, or an
    exception. *)
Inductive reply (A : Type) : Type :=
  | Reply (a : A)
  | Throws.

Arguments Reply {A} a.
Arguments Throws {A}.

(** [needle in hay] *)
Fixpoint contains (needle hay : string) : bool :=
  (String.prefix needle hay
   || match hay with
      | EmptyString => false
      | String _ hay' => contains needle hay'
      end)%bool.

(** The slice [l[:n]] of a list. *)
Definition list_slice_to {A : Type} (n : Z) (l : list A) : list A :=
  if Z.leb 0 n then firstn (Z.to_nat n) l
  else firstn (Z.to_nat (Z.of_nat (List.length l) + n)) l.

(** What a loaded page answers.
    - [hrefs selector]: [find_elements(By.CSS_SELECTOR, selector)], each
      element given by what [get_attribute("href")] answers for it;
    - [text_of selector]: [find_element(...).text];
    - [texts_of selector]: for every element that [find_elements] gives,
      its [text] as read for the test of the comprehension and its [text]
      as read again for the value, or an exception if one of the calls
      raises;
    - [src_of selector]: [find_element(...).get_attribute("src")]. *)
Record page := {
  hrefs : string -> reply (list (reply (option string)));
  text_of : string -> reply string;
  texts_of : string -> reply (list (string * string));
  src_of : string -> reply (option string)
}.

(** How the loop over the elements of one selector ends. *)
Inductive loop_exit : Type :=
  | Completed
  | Broke
  | Threw.

Definition opinion_marker : string := "/opinion/2026".

(** The loop [for element in elements] of [get_article_links], from the
    list [article_links] collected so far. *)
Fixpoint collect_links (count : Z) (elements : list (reply (option string)))
    (article_links : list string) : list string * loop_exit :=
  match elements with
  | [] => (article_links, Completed)
  | Throws :: _ => (article_links, Threw)
  | Reply None :: rest => collect_links count rest article_links
  | Reply (Some href) :: rest =>
      if (negb (String.eqb href "")
          && negb (existsb (String.eqb href) article_links)
          && contains opinion_marker href)%bool
      then
        let article_links' := article_links ++ [href] in
        if Z.geb (Z.of_nat (List.length article_links')) count
        then (article_links', Broke)
        else collect_links count rest article_links'
      else collect_links count rest article_links
  end.

(** The loop [for selector in selectors]: an exception inside the [try]
    goes on with the next selector; otherwise the loop stops as soon as
    [count] links are there. *)
Fixpoint try_selectors (pg : page) (count : Z) (selectors : list string)
    (article_links : list string) : list string :=
  match selectors with
  | [] => article_links
  | selector :: rest =>
      match hrefs pg selector with
      | Throws => try_selectors pg count rest article_links
      | Reply elements =>
          match collect_links count elements article_links with
          | (links, Threw) => try_selectors pg count rest links
          | (links, _) =>
              if Z.geb (Z.of_nat (List.length links)) count then links
              else try_selectors pg count rest links
          end
      end
  end.

Definition link_selectors : list string :=
  ["article a[href*='/opinion/']";
   "a[href*='/opinion/2026']";
   ".c_h a[href*='/opinion/']"].

(** [list(dict.fromkeys(article_links))[:count]] after the loops. *)
Definition get_article_links (pg : page) (count : Z) : list string :=
  let article_links := try_selectors pg count link_selectors [] in
  list_slice_to count (first_seen article_links).

(** The characters that [str.strip()] removes. *)
Definition is_space (c : ascii) : bool :=
  (between 9 13 c || between 28 32 c
   || N.eqb (code c) 133 || N.eqb (code c) 160)%bool.

Definition no_title : string := "No title found".
Definition no_content : string := "No content found".

Fixpoint first_title (pg : page) (selectors : list string) : string :=
  match selectors with
  | [] => no_title
  | selector :: rest =>
      match text_of pg selector with
      | Throws => first_title pg rest
      | Reply text =>
          let title := Utils.strip is_space text in
          if String.eqb title "" then first_title pg rest else title
      end
  end.

Definition _extract_title (pg : page) : string :=
  first_title pg ["h1"; "h1.a_t"; ".article_header h1"; "header h1"].

(** [" ".join(l)] *)
Fixpoint join_blank (l : list string) : string :=
  match l with
  | [] => EmptyString
  | [x] => x
  | x :: l' => (x ++ " " ++ join_blank l')%string
  end.

Fixpoint first_content (pg : page) (selectors : list string) : string :=
  match selectors with
  | [] => no_content
  | selector :: rest =>
      match texts_of pg selector with
      | Throws => first_content pg rest
      | Reply elements =>
          let paragraphs :=
            map (fun elem => Utils.strip is_space (snd elem))
              (filter
                 (fun elem =>
                    negb (String.eqb (Utils.strip is_space (fst elem)) ""))
                 elements) in
          match paragraphs with
          | [] => first_content pg rest
          | _ => join_blank (firstn 3 paragraphs)
          end
      end
  end.

Definition _extract_content (pg : page) : string :=
  first_content pg
    ["article p"; ".a_c p"; ".article_body p";
     "div[itemprop='articleBody'] p"].

Fixpoint first_image (pg : page) (selectors : list string) : option string :=
  match selectors with
  | [] => None
  | selector :: rest =>
      match src_of pg selector with
      | Reply (Some src) =>
          if (negb (String.eqb src "") && contains "http" src)%bool
          then Some src else first_image pg rest
      | _ => first_image pg rest
      end
  end.

Definition _extract_image (pg : page) : option string :=
  first_image pg
    ["article img"; ".a_m img"; "figure img"; "img[itemprop='image']";
     ".article_header img"].

Record article_data := {
  url : string;
  title : string;
  content : string;
  image_url : option string
}.

(** [visit url] is [driver.get(url)] followed by the wait for the
    headline: the page loaded, or an exception. *)
Definition scrape_article (visit : string -> reply page) (link : string)
    : option article_data :=
  match visit link with
  | Throws => None
  | Reply pg =>
      Some {| url := link;
              title := _extract_title pg;
              content := _extract_content pg;
              image_url := _extract_image pg |}
  end.

(** The scraper at work: [opinion] is what [navigate_to_opinion] gets (the
    page of the opinion section, or an exception, when it returns
    [False]), [visit] loads an article. *)
Record browser := {
  opinion : reply page;
  visit : string -> reply page
}.

Definition NUM_ARTICLES : Z := 5.

(** A call [download_image(url, save_path)], by the address and the file
    name under the images directory. *)
Record download := {
  image_address : string;
  file_name : string
}.

(** One round of the loop of [scrape_all]: the articles collected and the
    downloads asked for. *)
Definition scrape_step (b : browser)
    (acc : list article_data * list download) (link : string)
    : list article_data * list download :=
  match scrape_article (visit b) link with
  | None => acc
  | Some a =>
      (fst acc ++ [a],
       match image_url a with
       | Some src =>
           if String.eqb src "" then snd acc
           else snd acc
                ++ [{| image_address := src;
                       file_name :=
                         (Utils.sanitize_filename (title a)
                            Utils.default_filename_length ++ ".jpg")%string
                    |}]
       | None => snd acc
       end)
  end.

Definition scrape_run (b : browser) : list article_data * list download :=
  match opinion b with
  | Throws => ([], [])
  | Reply pg =>
      match get_article_links pg NUM_ARTICLES with
      | [] => ([], [])
      | article_links => fold_left (scrape_step b) article_links ([], [])
      end
  end.

(** The list that [scrape_all] returns. *)
Definition scrape_all (b : browser) : list article_data :=
  fst (scrape_run b).

(** On this page every element has the same text each time it is read. *)
Definition stable_texts (pg : page) : Prop :=
  forall selector elements elem,
    texts_of pg selector = Reply elements ->
    In elem elements -> fst elem = snd elem.

(** [visit] answered with a page for this link. *)
Definition loads (b : browser) (link : string) : bool :=
  match visit b link with
  | Reply _ => true
  | Throws => false
  end.

(** A page for the examples: the first selector finds a link twice, an
    element without [href], the address of the section itself, and then an
    element that raises; the second selector finds another link; the third
    raises. *)
Definition sample_page : page :=
  {| hrefs := fun selector =>
       if String.eqb selector "article a[href*='/opinion/']" then
         Reply [Reply (Some "https://elpais.com/opinion/2026-01-02/a.html");
                Reply None;
                Reply (Some "https://elpais.com/opinion/");
                Reply (Some "https://elpais.com/opinion/2026-01-02/a.html");
                Throws]
       else if String.eqb selector "a[href*='/opinion/2026']" then
         Reply [Reply (Some "https://elpais.com/opinion/2026-01-03/b.html")]
       else Throws;
     text_of := fun selector =>
       if String.eqb selector "h1.a_t" then Reply "  Un titulo: el fin?  "
       else if String.eqb selector "h1" then Reply "   "
       else Throws;
     texts_of := fun selector =>
       if String.eqb selector ".a_c p"
       then Reply [(" uno ", " uno "); ("", ""); ("dos", "dos");
                   ("tres", "tres"); ("cuatro", "cuatro")]
       else Throws;
     src_of := fun selector =>
       if String.eqb selector "figure img"
       then Reply (Some "https://img.elpais.com/a.jpg")
       else Reply (Some "data:image/gif;base64") |}.

(** A page whose one paragraph has lost its text when it is read again. *)
Definition fading_page : page :=
  {| hrefs := fun _ => Throws;
     text_of := fun _ => Throws;
     texts_of := fun selector =>
       if String.eqb selector "article p" then Reply [("x", "")]
       else Throws;
     src_of := fun _ => Throws |}.

(** A browser for the examples: the section loads, the first article
    loads, the second does not. *)
Definition sample_browser : browser :=
  {| opinion := Reply sample_page;
     visit := fun link =>
       if String.eqb link "https://elpais.com/opinion/2026-01-02/a.html"
       then Reply sample_page else Throws |}.

End ElPaisScraper.

(** ** Headers with letters beyond Latin-1 *)

(** Three letters outside the code points 0..255 have an ASCII letter as
    their partner in the other case.  The analysis is modelled a second
    time over texts that may hold them, to compare headers that differ in
    letter case. *)
Module Wide.

(** A character of a header: a code point 0..255, or
    - the long s, U+017F: a small letter, its capital is S;
    - the dotless i, U+0131: a small letter, its capital is I;
    - the Kelvin sign, U+212A: a capital letter, its small form is k. *)
Inductive char : Type :=
  | Latin (c : ascii)
  | LongS
  | DotlessI
  | KelvinSign.

Definition text := list char.

Definition of_string (s : string) : text :=
  map Latin (list_ascii_of_string s).

(** [str.lower] on one character. *)
Definition to_lower (c : char) : char :=
  match c with
  | Latin a => Latin (char_lower a)
  | LongS => LongS
  | DotlessI => DotlessI
  | KelvinSign => Latin "k"
  end.


(** [str.lower] *)
Definition lower (s : text) : text := map to_lower s.

(** The class [[a-z]]: the letter, when the character is one. *)
Definition az (c : char) : option ascii :=
  match c with
  | Latin a => if is_az a then Some a else None
  | _ => None
  end.

(** The class [\w]: the three letters are word characters. *)
Definition word (c : char) : bool :=
  match c with
  | Latin a => is_word a
  | _ => true
  end.

Definition word_at (o : option char) : bool :=
  match o with
  | None => false
  | Some c => word c
  end.

Definition boundary (prev next : option char) : bool :=
  xorb (word_at prev) (word_at next).

(** [[a-z]+] followed by the rest of the pattern [k], as [greedy_plus]
    above; the text matched is a string of letters. *)
Fixpoint greedy_letters (k : option char -> text -> bool) (s : text)
    : option (string * text) :=
  match s with
  | [] => None
  | c :: s' =>
      match az c with
      | Some a =>
          match greedy_letters k s' with
          | Some (m, r) => Some (String a m, r)
          | None =>
              if k (Some c) s' then Some (String a EmptyString, s') else None
          end
      | None => None
      end
  end.

Definition match_here (prev : option char) (s : text)
    : option (string * text) :=
  if boundary prev (hd_error s) then
    greedy_letters (fun p r => boundary p (hd_error r)) s
  else None.

(** The character before the position behind the match [m]. *)
Definition after_match (prev : option char) (m : string) : option char :=
  match last_char None m with
  | Some a => Some (Latin a)
  | None => prev
  end.

Fixpoint findall_from (fuel : nat) (prev : option char) (s : text)
    : list string :=
  match fuel with
  | O => []
  | S fuel' =>
      match match_here prev s with
      | Some (m, r) =>
          m :: findall_from fuel' (after_match prev m) r
      | None =>
          match s with
          | [] => []
          | c :: s' => findall_from fuel' (Some c) s'
          end
      end
  end.

(** [re.findall(r'\b[a-z]+\b', s)] *)
Definition findall (s : text) : list string :=
  findall_from (S (List.length s)) None s.

Definition header_words (header : text) : list string :=
  let header_lower := lower header in
  let words := findall header_lower in
  filter (fun word => Nat.ltb 2 (String.length word)) words.

Definition all_words (headers : list text) : list string :=
  fold_left (fun acc header => acc ++ header_words header) headers [].

Definition count_words (headers : list text) : table :=
  Counter (all_words headers).

Definition analyze_headers (self : WordAnalyzer.t)
    (translated_headers : list text) : table :=
  let word_counts := count_words translated_headers in
  let repeated_words :=
    WordAnalyzer.filter_repeated_words self word_counts in
  dict_of_items (WordAnalyzer.sorted_desc repeated_words).






End Wide.

(** * Properties *)

(** ** The examples of the test suite *)

(** The headers of [test_count_words]. *)
Example test_count_words :
  let c := WordAnalyzer.count_words
             ["The quick brown fox"; "The lazy dog"; "The quick cat"] in
  counter_get "the" c = 3%Z /\ counter_get "quick" c = 2%Z
  /\ counter_get "brown" c = 1%Z.
Proof. vm_compute. auto. Qed.

(** The headers of [test_analyze_headers]: "the" occurs four times, twice
    in the first header. *)
Example test_analyze_headers :
  WordAnalyzer.analyze_headers (WordAnalyzer.init (Some 3%Z))
    ["The European Union and the crisis";
     "The political crisis in Europe";
     "European leaders discuss the situation"]
  = [("the", 4%Z)].
Proof. vm_compute. reflexivity. Qed.

(** The header of [test_short_words_filtered]. *)
Example test_short_words_filtered :
  keys (WordAnalyzer.count_words ["A big dog is in a box"])
  = ["big"; "dog"; "box"].
Proof. vm_compute. reflexivity. Qed.

(** Four failing calls: the first title uses up three and is kept as it
    is, the empty title makes no call, the third title succeeds on its
    second call. *)
Example test_translate_titles_flaky :
  snd (ArticleTranslator.translate_titles (ArticleTranslator.flaky 4)
         ["uno"; ""; "dos"; "tres"] 0)
  = ["uno"; ""; "[dos]"; "[tres]"].
Proof. vm_compute. reflexivity. Qed.

(** A run of letters next to a digit. *)
Example test_covid :
  WordAnalyzer.header_words "Covid19 cases rise" = ["cases"; "rise"]
  /\ spec_normalize "Covid19 cases rise" = ["covid"; "cases"; "rise"]
  /\ word_bounded_normalize "Covid19 cases rise" = ["cases"; "rise"].
Proof. vm_compute. auto. Qed.

(** ** Dictionaries *)

Lemma dict_get_none (w : string) (d : table) :
  dict_get w d = None <-> ~ In w (keys d).
Proof.
  induction d as [|[k v] d IH]; simpl.
  - tauto.
  - destruct (String.eqb_spec k w) as [->|Hne].
    + split; [discriminate | intros H; exfalso; apply H; now left].
    + rewrite IH. split; intros H; [intros [E|I]; auto | tauto].
Qed.

Lemma dict_get_in_keys (w : string) (v : Z) (d : table) :
  dict_get w d = Some v -> In w (keys d).
Proof.
  intros H. destruct (in_dec string_dec w (keys d)) as [I|N]; [exact I|].
  apply dict_get_none in N. congruence.
Qed.

Lemma dict_get_In (w : string) (v : Z) (d : table) :
  dict_get w d = Some v -> In (w, v) d.
Proof.
  induction d as [|[k x] d IH]; simpl; [discriminate|].
  destruct (String.eqb_spec k w) as [->|Hne].
  - intros [= ->]. now left.
  - intros H. right. auto.
Qed.

Lemma In_dict_get (w : string) (v : Z) (d : table) :
  NoDup (keys d) -> In (w, v) d -> dict_get w d = Some v.
Proof.
  induction d as [|[k x] d IH]; simpl; [tauto|].
  intros ND [E|I].
  - injection E as -> ->. now rewrite String.eqb_refl.
  - inversion ND as [|? ? Hk ND']; subst.
    destruct (String.eqb_spec k w) as [->|Hne].
    + exfalso. apply Hk. change (In (fst (w, v)) (map fst d)). now apply in_map.
    + auto.
Qed.

Lemma dict_set_new (w : string) (v : Z) (d : table) :
  ~ In w (keys d) -> dict_set w v d = d ++ [(w, v)].
Proof.
  induction d as [|[k x] d IH]; simpl; [reflexivity|].
  intros H. destruct (String.eqb_spec k w) as [->|Hne].
  - exfalso. apply H. now left.
  - rewrite IH; [reflexivity | tauto].
Qed.

Lemma keys_dict_set_old (w : string) (v : Z) (d : table) :
  In w (keys d) -> keys (dict_set w v d) = keys d.
Proof.
  induction d as [|[k x] d IH]; simpl; [tauto|].
  intros H. destruct (String.eqb_spec k w) as [->|Hne]; simpl.
  - reflexivity.
  - f_equal. apply IH. destruct H; [contradiction | assumption].
Qed.

Lemma dict_get_set (w w' : string) (v : Z) (d : table) :
  dict_get w' (dict_set w v d)
  = if String.eqb w w' then Some v else dict_get w' d.
Proof.
  induction d as [|[k x] d IH]; simpl.
  - reflexivity.
  - destruct (String.eqb_spec k w) as [->|Hne]; simpl.
    + destruct (String.eqb_spec w w'); reflexivity.
    + rewrite IH. destruct (String.eqb_spec k w') as [->|Hne'].
      * destruct (String.eqb_spec w w') as [->|]; [contradiction | reflexivity].
      * reflexivity.
Qed.

Lemma keys_app (d d' : table) : keys (d ++ d') = keys d ++ keys d'.
Proof. apply map_app. Qed.

Lemma NoDup_keys_dict_set (w : string) (v : Z) (d : table) :
  NoDup (keys d) -> NoDup (keys (dict_set w v d)).
Proof.
  intros ND. destruct (in_dec string_dec w (keys d)) as [I|N].
  - now rewrite keys_dict_set_old.
  - rewrite dict_set_new, keys_app by assumption. simpl.
    apply NoDup_app; [assumption | repeat constructor; simpl; tauto |].
    intros x Hx [<-|[]]. contradiction.
Qed.

Lemma fold_dict_set_distinct (items acc : table) :
  NoDup (keys (acc ++ items)) ->
  fold_left (fun d kv => dict_set (fst kv) (snd kv) d) items acc
  = acc ++ items.
Proof.
  revert acc. induction items as [|[k v] items IH]; intros acc ND; simpl.
  - now rewrite app_nil_r.
  - assert (Hk : ~ In k (keys acc)).
    { rewrite keys_app in ND. simpl in ND.
      apply NoDup_remove_2 in ND. intros I. apply ND.
      apply in_or_app. now left. }
    rewrite dict_set_new by assumption.
    rewrite IH; rewrite <- app_assoc; simpl; [reflexivity | assumption].
Qed.

(** Building a dictionary from pairs with distinct keys stores exactly
    those pairs, in their order. *)
Lemma dict_of_items_distinct (items : table) :
  NoDup (keys items) -> dict_of_items items = items.
Proof.
  intros ND. unfold dict_of_items. now rewrite fold_dict_set_distinct.
Qed.

Lemma NoDup_keys_fold_dict_set (items acc : table) :
  NoDup (keys acc) ->
  NoDup (keys (fold_left (fun d kv => dict_set (fst kv) (snd kv) d) items acc)).
Proof.
  revert acc. induction items as [|kv items IH]; intros acc ND; simpl.
  - assumption.
  - apply IH. now apply NoDup_keys_dict_set.
Qed.

Lemma NoDup_keys_dict_of_items (items : table) :
  NoDup (keys (dict_of_items items)).
Proof. apply NoDup_keys_fold_dict_set. constructor. Qed.

Lemma NoDup_keys_filter (p : string * Z -> bool) (d : table) :
  NoDup (keys d) -> NoDup (keys (filter p d)).
Proof.
  induction d as [|kv d IH]; simpl; intros ND; [constructor|].
  inversion ND as [|? ? Hk ND']; subst.
  destruct (p kv); simpl; [|auto].
  constructor; [|auto].
  intros I. apply Hk. unfold keys in *.
  apply in_map_iff in I as [q [Hq Iq]]. apply filter_In in Iq as [Iq _].
  rewrite <- Hq. now apply in_map.
Qed.

(** ** Counting *)

Lemma counter_get_add (d : table) (x w : string) :
  counter_get w (counter_add d x)
  = (counter_get w d + if String.eqb x w then 1 else 0)%Z.
Proof.
  unfold counter_get, counter_add. rewrite dict_get_set.
  destruct (String.eqb_spec x w) as [->|Hne]; [reflexivity | lia].
Qed.

Lemma counter_get_fold (ws : list string) (d : table) (w : string) :
  counter_get w (fold_left counter_add ws d)
  = (counter_get w d + Z.of_nat (count_occ string_dec ws w))%Z.
Proof.
  revert d. induction ws as [|x ws IH]; intros d; simpl.
  - lia.
  - rewrite IH, counter_get_add.
    destruct (string_dec x w) as [->|Hne].
    + rewrite String.eqb_refl. lia.
    + apply String.eqb_neq in Hne. rewrite Hne. lia.
Qed.

Lemma filter_filter {A : Type} (p q : A -> bool) (l : list A) :
  filter p (filter q l) = filter (fun x => (q x && p x)%bool) l.
Proof.
  induction l as [|a l IH]; simpl; [reflexivity|].
  destruct (q a); simpl; [destruct (p a)|]; now rewrite IH.
Qed.

Lemma existsb_eqb_In (x : string) (l : list string) :
  existsb (String.eqb x) l = true <-> In x l.
Proof.
  rewrite existsb_exists. split.
  - intros [y [Iy Ey]]. apply String.eqb_eq in Ey. now subst.
  - intros I. exists x. split; [assumption | apply String.eqb_refl].
Qed.

Lemma keys_counter_add_old (d : table) (w : string) :
  In w (keys d) -> keys (counter_add d w) = keys d.
Proof. intros I. unfold counter_add. now apply keys_dict_set_old. Qed.

Lemma keys_counter_add_new (d : table) (w : string) :
  ~ In w (keys d) -> keys (counter_add d w) = keys d ++ [w].
Proof.
  intros N. unfold counter_add. rewrite dict_set_new by assumption.
  now rewrite keys_app.
Qed.

Lemma keys_counter_fold (ws : list string) (d : table) :
  keys (fold_left counter_add ws d)
  = keys d
    ++ filter (fun x => negb (existsb (String.eqb x) (keys d))) (first_seen ws).
Proof.
  revert d. induction ws as [|w ws IH]; intros d; simpl.
  - now rewrite app_nil_r.
  - rewrite IH. rewrite filter_filter.
    destruct (in_dec string_dec w (keys d)) as [I|N].
    + rewrite keys_counter_add_old by assumption.
      apply existsb_eqb_In in I as E. rewrite E. simpl. f_equal.
      apply filter_ext_in. intros x _.
      destruct (existsb (String.eqb x) (keys d)) eqn:Ex; simpl.
      * now rewrite andb_false_r.
      * destruct (String.eqb_spec w x) as [->|]; [congruence | reflexivity].
    + rewrite keys_counter_add_new by assumption.
      assert (E : existsb (String.eqb w) (keys d) = false).
      { destruct (existsb (String.eqb w) (keys d)) eqn:Ex; [|reflexivity].
        apply existsb_eqb_In in Ex. contradiction. }
      rewrite E. simpl. rewrite <- app_assoc. simpl. do 2 f_equal.
      apply filter_ext. intros x. rewrite existsb_app. simpl.
      rewrite orb_false_r, negb_orb, (String.eqb_sym x w). apply andb_comm.
Qed.

(** The keys of a counter are the distinct words in first-seen order. *)
Lemma keys_Counter (ws : list string) : keys (Counter ws) = first_seen ws.
Proof.
  unfold Counter. rewrite keys_counter_fold. simpl.
  induction (first_seen ws) as [|x l IH]; simpl; [reflexivity | now f_equal].
Qed.

Lemma In_first_seen (x : string) (l : list string) :
  In x (first_seen l) <-> In x l.
Proof.
  induction l as [|w l IH]; simpl; [tauto|].
  rewrite filter_In, IH. destruct (String.eqb_spec w x) as [->|Hne]; simpl.
  - intuition.
  - intuition congruence.
Qed.

Lemma NoDup_filter {A : Type} (p : A -> bool) (l : list A) :
  NoDup l -> NoDup (filter p l).
Proof.
  induction 1 as [|a l Ha ND IH]; simpl; [constructor|].
  destruct (p a); [|assumption].
  constructor; [|assumption]. rewrite filter_In. tauto.
Qed.

Lemma NoDup_first_seen (l : list string) : NoDup (first_seen l).
Proof.
  induction l as [|w l IH]; simpl; constructor.
  - rewrite filter_In, String.eqb_refl. simpl. intros [_ H]. discriminate.
  - now apply NoDup_filter.
Qed.

Lemma NoDup_keys_Counter (ws : list string) : NoDup (keys (Counter ws)).
Proof. rewrite keys_Counter. apply NoDup_first_seen. Qed.

Lemma In_keys_Counter (w : string) (ws : list string) :
  In w (keys (Counter ws)) <-> In w ws.
Proof. rewrite keys_Counter. apply In_first_seen. Qed.

Lemma counter_get_Counter (w : string) (ws : list string) :
  counter_get w (Counter ws) = Z.of_nat (count_occ string_dec ws w).
Proof. unfold Counter. now rewrite counter_get_fold. Qed.

(** Every entry of a counter built from a list of words holds the number of
    occurrences of its word, which is at least 1. *)
Lemma In_Counter (w : string) (c : Z) (ws : list string) :
  In (w, c) (Counter ws) <->
  In w ws /\ c = Z.of_nat (count_occ string_dec ws w).
Proof.
  split.
  - intros I. assert (K : In w (keys (Counter ws))).
    { change (In (fst (w, c)) (map fst (Counter ws))). now apply in_map. }
    split; [now apply In_keys_Counter|].
    apply In_dict_get in I; [|apply NoDup_keys_Counter].
    rewrite <- counter_get_Counter. unfold counter_get. now rewrite I.
  - intros [I ->]. apply dict_get_In.
    apply In_keys_Counter in I.
    destruct (dict_get w (Counter ws)) as [n|] eqn:G.
    + f_equal. rewrite <- counter_get_Counter. unfold counter_get.
      now rewrite G.
    + apply dict_get_none in G. contradiction.
Qed.

Lemma all_words_flat_map (headers : list string) :
  WordAnalyzer.all_words headers
  = flat_map WordAnalyzer.header_words headers.
Proof.
  unfold WordAnalyzer.all_words.
  enough (H : forall acc,
             fold_left (fun a h => a ++ WordAnalyzer.header_words h) headers acc
             = acc ++ flat_map WordAnalyzer.header_words headers)
    by apply (H []).
  induction headers as [|h hs IH]; intros acc; simpl.
  - now rewrite app_nil_r.
  - now rewrite IH, app_assoc.
Qed.

Lemma count_occ_flat_map (f : string -> list string) (l : list string)
    (w : string) :
  count_occ string_dec (flat_map f l) w
  = list_sum (map (fun h => count_occ string_dec (f h) w) l).
Proof.
  induction l as [|h l IH]; simpl; [reflexivity|].
  now rewrite count_occ_app, IH.
Qed.

(** ** Filtering *)

Lemma In_dict_set (q : string * Z) (w : string) (v : Z) (d : table) :
  In q (dict_set w v d) -> q = (w, v) \/ In q d.
Proof.
  induction d as [|[k x] d IH]; simpl.
  - intros [<-|[]]. now left.
  - destruct (String.eqb_spec k w) as [->|Hne]; simpl.
    + intros [<-|I]; auto.
    + intros [<-|I]; auto. destruct (IH I); auto.
Qed.

Lemma filter_all {A : Type} (p : A -> bool) (l : list A) :
  (forall x, In x l -> p x = true) -> filter p l = l.
Proof.
  induction l as [|a l IH]; simpl; intros H; [reflexivity|].
  rewrite (H a) by now left. f_equal. apply IH. auto.
Qed.

Lemma filter_none {A : Type} (p : A -> bool) (l : list A) :
  (forall x, In x l -> p x = false) -> filter p l = [].
Proof.
  induction l as [|a l IH]; simpl; intros H; [reflexivity|].
  rewrite (H a) by now left. apply IH. auto.
Qed.

(** On a dictionary the comprehension of [filter_repeated_words] is the
    list filter on its items. *)
Lemma filter_repeated_words_filter (self : WordAnalyzer.t) (d : table) :
  NoDup (keys d) ->
  WordAnalyzer.filter_repeated_words self d
  = filter (fun wc => Z.geb (snd wc) (WordAnalyzer.min_occurrences self)) d.
Proof.
  intros ND. unfold WordAnalyzer.filter_repeated_words.
  apply dict_of_items_distinct. now apply NoDup_keys_filter.
Qed.

(** ** Sorting *)

Lemma In_insert_desc (q p : string * Z) (l : list (string * Z)) :
  In q (WordAnalyzer.insert_desc p l) <-> q = p \/ In q l.
Proof.
  induction l as [|a l IH]; simpl.
  - intuition.
  - destruct (Z.ltb (snd p) (snd a)); simpl; [rewrite IH|]; intuition.
Qed.

Lemma In_sorted_desc (q : string * Z) (l : list (string * Z)) :
  In q (WordAnalyzer.sorted_desc l) <-> In q l.
Proof.
  induction l as [|a l IH]; simpl; [tauto|].
  rewrite In_insert_desc, IH. intuition.
Qed.

Lemma descending_insert_desc (p : string * Z) (l : list (string * Z)) :
  descending l -> descending (WordAnalyzer.insert_desc p l).
Proof.
  induction l as [|a l IH]; simpl.
  - intros _. split; [intros q []|exact I].
  - intros [Ha Hl]. destruct (Z.ltb_spec (snd p) (snd a)); simpl.
    + split; [|auto]. intros q Hq. apply In_insert_desc in Hq as [->|Hq].
      * lia.
      * auto.
    + split; [|split; assumption].
      intros q [<-|Hq]; [lia|]. specialize (Ha q Hq). lia.
Qed.

Lemma descending_sorted_desc (l : list (string * Z)) :
  descending (WordAnalyzer.sorted_desc l).
Proof.
  induction l as [|a l IH]; simpl; [exact I|].
  now apply descending_insert_desc.
Qed.

(** Stability: the items with a given count come out in the order in which
    they went in. *)
Lemma filter_count_insert_desc (c : Z) (p : string * Z)
    (l : list (string * Z)) :
  filter (fun q => Z.eqb (snd q) c) (WordAnalyzer.insert_desc p l)
  = filter (fun q => Z.eqb (snd q) c) (p :: l).
Proof.
  induction l as [|a l IH]; [reflexivity|].
  cbn [WordAnalyzer.insert_desc].
  destruct (Z.ltb_spec (snd p) (snd a)); [|reflexivity].
  cbn [filter] in *. rewrite IH.
  destruct (Z.eqb_spec (snd p) c), (Z.eqb_spec (snd a) c);
    try reflexivity; lia.
Qed.

Lemma filter_count_sorted_desc (c : Z) (l : list (string * Z)) :
  filter (fun q => Z.eqb (snd q) c) (WordAnalyzer.sorted_desc l)
  = filter (fun q => Z.eqb (snd q) c) l.
Proof.
  induction l as [|a l IH]; [reflexivity|].
  cbn [WordAnalyzer.sorted_desc fold_right].
  rewrite filter_count_insert_desc. cbn [filter].
  fold (WordAnalyzer.sorted_desc l). now rewrite IH.
Qed.

(** A list with the counts largest first is determined by its items of
    each count, taken in order. *)
Lemma descending_determined (l1 l2 : list (string * Z)) :
  descending l1 -> descending l2 ->
  (forall c, filter (fun q => Z.eqb (snd q) c) l1
             = filter (fun q => Z.eqb (snd q) c) l2) ->
  l1 = l2.
Proof.
  revert l2. induction l1 as [|p l1 IH]; intros [|q l2] D1 D2 H.
  - reflexivity.
  - specialize (H (snd q)). simpl in H. rewrite Z.eqb_refl in H.
    discriminate.
  - specialize (H (snd p)). simpl in H. rewrite Z.eqb_refl in H.
    discriminate.
  - destruct D1 as [M1 D1], D2 as [M2 D2].
    assert (Hqp : (snd q <= snd p)%Z).
    { assert (I : In q (filter (fun x => Z.eqb (snd x) (snd q)) (p :: l1))).
      { rewrite H. simpl. rewrite Z.eqb_refl. now left. }
      apply filter_In in I as [[->|I] _]; [lia | auto]. }
    assert (Hpq : (snd p <= snd q)%Z).
    { assert (I : In p (filter (fun x => Z.eqb (snd x) (snd p)) (q :: l2))).
      { rewrite <- H. simpl. rewrite Z.eqb_refl. now left. }
      apply filter_In in I as [[->|I] _]; [lia | auto]. }
    assert (E : snd p = snd q) by lia.
    pose proof (H (snd p)) as H0. simpl in H0.
    rewrite <- E, Z.eqb_refl in H0. injection H0 as -> H0.
    f_equal. apply IH; [assumption | assumption |].
    intros c. specialize (H c). simpl in H.
    destruct (Z.eqb (snd q) c); [now injection H | exact H].
Qed.

(** Every stable sort by count, largest first, gives the list that
    [sorted_desc] gives. *)
Lemma sorted_desc_determined (l l' : list (string * Z)) :
  descending l' ->
  (forall c, filter (fun q => Z.eqb (snd q) c) l'
             = filter (fun q => Z.eqb (snd q) c) l) ->
  l' = WordAnalyzer.sorted_desc l.
Proof.
  intros D H. apply descending_determined;
    [assumption | apply descending_sorted_desc |].
  intros c. now rewrite filter_count_sorted_desc.
Qed.

Lemma keys_insert_desc_In (w : string) (p : string * Z)
    (l : list (string * Z)) :
  In w (keys (WordAnalyzer.insert_desc p l)) <-> w = fst p \/ In w (keys l).
Proof.
  unfold keys. split.
  - intros Hw. apply in_map_iff in Hw as [q [<- Hq]].
    apply In_insert_desc in Hq as [->|Hq]; [now left|].
    right. now apply in_map.
  - intros [->|Hw].
    + apply in_map, In_insert_desc. now left.
    + apply in_map_iff in Hw as [q [<- Hq]].
      apply in_map, In_insert_desc. now right.
Qed.

Lemma NoDup_keys_insert_desc (p : string * Z) (l : list (string * Z)) :
  ~ In (fst p) (keys l) -> NoDup (keys l) ->
  NoDup (keys (WordAnalyzer.insert_desc p l)).
Proof.
  induction l as [|a l IH]; simpl; intros Hp ND.
  - repeat constructor. tauto.
  - inversion ND as [|? ? Ha ND']; subst.
    destruct (Z.ltb (snd p) (snd a)); simpl.
    + constructor.
      * change (~ In (fst a) (keys (WordAnalyzer.insert_desc p l))).
        rewrite keys_insert_desc_In. intros [E|I]; [|contradiction].
        apply Hp. left. now symmetry.
      * apply IH; [tauto | assumption].
    + constructor; [exact Hp | exact ND].
Qed.

Lemma NoDup_keys_sorted_desc (l : list (string * Z)) :
  NoDup (keys l) -> NoDup (keys (WordAnalyzer.sorted_desc l)).
Proof.
  induction l as [|a l IH]; simpl; intros ND; [constructor|].
  inversion ND as [|? ? Ha ND']; subst.
  apply NoDup_keys_insert_desc; [|auto].
  intros I. apply Ha. unfold keys in *.
  apply in_map_iff in I as [q [Eq Hq]].
  apply (proj1 (In_sorted_desc q l)) in Hq.
  rewrite <- Eq. now apply in_map.
Qed.

Lemma NoDup_keys_count_words (hs : list string) :
  NoDup (keys (WordAnalyzer.count_words hs)).
Proof. apply NoDup_keys_Counter. Qed.

(** The facade without the two dictionary constructions. *)
Lemma analyze_headers_unfold (self : WordAnalyzer.t) (hs : list string) :
  WordAnalyzer.analyze_headers self hs
  = WordAnalyzer.sorted_desc
      (filter (fun wc => Z.geb (snd wc) (WordAnalyzer.min_occurrences self))
         (WordAnalyzer.count_words hs)).
Proof.
  unfold WordAnalyzer.analyze_headers.
  rewrite filter_repeated_words_filter by apply NoDup_keys_count_words.
  apply dict_of_items_distinct, NoDup_keys_sorted_desc, NoDup_keys_filter,
    NoDup_keys_count_words.
Qed.

(** ** The threshold is not validated *)

(** C1, as stated, fails: with [min_occurrences = 0] the filter returns
    normally; no [InvalidConfiguration] is raised. *)
Lemma threshold_zero_is_accepted :
  call_filter_repeated_words (WordAnalyzer.init (Some 0%Z))
    [("the", 5%Z); ("quick", 2%Z)]
  = Returned [("the", 5%Z); ("quick", 2%Z)]
  /\ call_filter_repeated_words (WordAnalyzer.init (Some 0%Z))
       [("the", 5%Z); ("quick", 2%Z)]
     <> Raised InvalidConfiguration.
Proof. split; [reflexivity | discriminate]. Qed.

Lemma counts_positive (w : string) (c : Z) (hs : list string) :
  In (w, c) (WordAnalyzer.count_words hs) -> (1 <= c)%Z.
Proof.
  unfold WordAnalyzer.count_words. intros I.
  apply In_Counter in I as [I ->].
  apply (count_occ_In string_dec) in I. lia.
Qed.

(** C1 (amended): for every integer threshold, positive or not, the filter
    raises no error; with a threshold of at most 1 (so with every
    non-positive one) it returns the whole table that [count_words]
    built. *)
Theorem filter_never_raises (t : Z) (word_counts : table) :
  (forall e,
     call_filter_repeated_words (WordAnalyzer.init (Some t)) word_counts
     <> Raised e)
  /\ ((t <= 1)%Z ->
      forall hs,
        call_filter_repeated_words (WordAnalyzer.init (Some t))
          (WordAnalyzer.count_words hs)
        = Returned (WordAnalyzer.count_words hs)).
Proof.
  split.
  - intros e. discriminate.
  - intros Ht hs. unfold call_filter_repeated_words. f_equal.
    rewrite filter_repeated_words_filter by apply NoDup_keys_count_words.
    apply filter_all. intros [w c] I. apply counts_positive in I.
    simpl. apply Z.geb_le. lia.
Qed.

Lemma filter_never_raises_witness :
  (forall e,
     call_filter_repeated_words (WordAnalyzer.init (Some (-2)%Z))
       [("the", 5%Z)] <> Raised e)
  /\ call_filter_repeated_words (WordAnalyzer.init (Some (-2)%Z))
       (WordAnalyzer.count_words ["The cat and the dog"])
     = Returned [("the", 2%Z); ("cat", 1%Z); ("and", 1%Z); ("dog", 1%Z)].
Proof.
  destruct (filter_never_raises (-2)%Z [("the", 5%Z)]) as [H1 H2].
  split; [exact H1|].
  apply (H2 ltac:(lia) ["The cat and the dog"]).
Defined.

(** ** The frequency table *)

(** C3: the table built by [count_words] gives every word the number of
    its occurrences, added up over the headers (repeats inside a header
    count); its keys are the words that occur; no header gives the empty
    table. *)
Theorem count_words_counts_occurrences (headers : list string) (w : string) :
  WordAnalyzer.count_words [] = []
  /\ counter_get w (WordAnalyzer.count_words headers)
     = Z.of_nat
         (list_sum
            (map (fun h =>
                    count_occ string_dec (WordAnalyzer.header_words h) w)
               headers))
  /\ (In w (keys (WordAnalyzer.count_words headers)) <->
      exists h, In h headers /\ In w (WordAnalyzer.header_words h))
  /\ (forall c, dict_get w (WordAnalyzer.count_words headers) = Some c ->
                c = counter_get w (WordAnalyzer.count_words headers)
                /\ (1 <= c)%Z).
Proof.
  split; [reflexivity|]. unfold WordAnalyzer.count_words.
  split; [|split].
  - rewrite counter_get_Counter, all_words_flat_map.
    now rewrite count_occ_flat_map.
  - rewrite In_keys_Counter, all_words_flat_map, in_flat_map. reflexivity.
  - intros c G. split.
    + unfold counter_get. now rewrite G.
    + apply dict_get_In in G. now apply (counts_positive w c headers).
Qed.

(** C4: on a frequency table the filter keeps exactly the entries whose
    count is at least the threshold, unchanged and in their order; the
    threshold of an analyzer built without argument is 3. *)
Theorem filter_repeated_words_keeps_frequent (self : WordAnalyzer.t)
    (word_counts : table) :
  NoDup (keys word_counts) ->
  (forall w c,
     In (w, c) (WordAnalyzer.filter_repeated_words self word_counts) <->
     In (w, c) word_counts /\ (WordAnalyzer.min_occurrences self <= c)%Z)
  /\ (forall w,
        dict_get w (WordAnalyzer.filter_repeated_words self word_counts)
        = match dict_get w word_counts with
          | Some c =>
              if Z.leb (WordAnalyzer.min_occurrences self) c
              then Some c else None
          | None => None
          end)
  /\ WordAnalyzer.min_occurrences (WordAnalyzer.init None) = 3%Z.
Proof.
  intros ND. rewrite filter_repeated_words_filter by assumption.
  assert (Hin : forall w c,
             In (w, c)
               (filter (fun wc =>
                          Z.geb (snd wc) (WordAnalyzer.min_occurrences self))
                  word_counts) <->
             In (w, c) word_counts
             /\ (WordAnalyzer.min_occurrences self <= c)%Z).
  { intros w c. rewrite filter_In. simpl. now rewrite Z.geb_le. }
  split; [exact Hin|]. split; [|reflexivity].
  intros w.
  set (f := filter _ word_counts) in *.
  assert (NDf : NoDup (keys f)) by now apply NoDup_keys_filter.
  destruct (dict_get w word_counts) as [c|] eqn:G.
  - destruct (Z.leb_spec (WordAnalyzer.min_occurrences self) c) as [L|L].
    + apply In_dict_get; [assumption|]. apply Hin. split; [|assumption].
      now apply dict_get_In.
    + destruct (dict_get w f) as [c'|] eqn:G'; [|reflexivity].
      apply dict_get_In, Hin in G' as [I L'].
      apply In_dict_get in I; [|assumption]. rewrite G in I.
      injection I as ->. lia.
  - destruct (dict_get w f) as [c'|] eqn:G'; [|reflexivity].
    apply dict_get_In, Hin in G' as [I _].
    apply In_dict_get in I; [|assumption]. congruence.
Qed.

Lemma NoDup_test_table :
  NoDup (keys [("the", 5%Z); ("quick", 2%Z); ("brown", 1%Z); ("fox", 3%Z)]).
Proof.
  repeat (constructor; [simpl; intuition discriminate|]). constructor.
Qed.

Lemma filter_repeated_words_keeps_frequent_witness :
  dict_get "fox"
    (WordAnalyzer.filter_repeated_words (WordAnalyzer.init None)
       [("the", 5%Z); ("quick", 2%Z); ("brown", 1%Z); ("fox", 3%Z)])
  = Some 3%Z.
Proof.
  exact (proj1 (proj2
    (filter_repeated_words_keeps_frequent (WordAnalyzer.init None)
       [("the", 5%Z); ("quick", 2%Z); ("brown", 1%Z); ("fox", 3%Z)]
       NoDup_test_table)) "fox").
Defined.

(** ** The facade *)

Lemma Permutation_insert_desc (p : string * Z) (l : list (string * Z)) :
  Permutation (WordAnalyzer.insert_desc p l) (p :: l).
Proof.
  induction l as [|q l IH]; simpl; [apply Permutation_refl|].
  destruct (Z.ltb (snd p) (snd q)); [|apply Permutation_refl].
  apply (Permutation_trans (perm_skip q IH)), perm_swap.
Qed.

Lemma Permutation_sorted_desc (l : list (string * Z)) :
  Permutation (WordAnalyzer.sorted_desc l) l.
Proof.
  induction l as [|p l IH]; simpl; [constructor|].
  apply (Permutation_trans (Permutation_insert_desc p _)).
  now apply perm_skip.
Qed.

(** C5: [analyze_headers] is counting, then filtering, then sorting by
    count.  Its result holds the entries that the filter keeps of the
    table of counts, each once and no other; it lists the counts largest
    first; the entries of one count keep the order the filter gave them;
    and it is the only list with the last two properties, so it is what
    any stable sort by descending count makes of the filtered table. *)
Theorem analyze_headers_is_count_filter_sort (self : WordAnalyzer.t)
    (headers : list string) :
  WordAnalyzer.analyze_headers self headers
  = WordAnalyzer.sorted_desc
      (WordAnalyzer.filter_repeated_words self
         (WordAnalyzer.count_words headers))
  /\ Permutation (WordAnalyzer.analyze_headers self headers)
       (WordAnalyzer.filter_repeated_words self
          (WordAnalyzer.count_words headers))
  /\ descending (WordAnalyzer.analyze_headers self headers)
  /\ (forall c,
        filter (fun q => Z.eqb (snd q) c)
          (WordAnalyzer.analyze_headers self headers)
        = filter (fun q => Z.eqb (snd q) c)
            (WordAnalyzer.filter_repeated_words self
               (WordAnalyzer.count_words headers)))
  /\ (forall l,
        descending l ->
        (forall c,
           filter (fun q => Z.eqb (snd q) c) l
           = filter (fun q => Z.eqb (snd q) c)
               (WordAnalyzer.filter_repeated_words self
                  (WordAnalyzer.count_words headers))) ->
        l = WordAnalyzer.analyze_headers self headers).
Proof.
  assert (E : WordAnalyzer.analyze_headers self headers
              = WordAnalyzer.sorted_desc
                  (WordAnalyzer.filter_repeated_words self
                     (WordAnalyzer.count_words headers))).
  { rewrite analyze_headers_unfold.
    now rewrite filter_repeated_words_filter
      by apply NoDup_keys_count_words. }
  rewrite E. split; [reflexivity|].
  split; [apply Permutation_sorted_desc|].
  split; [apply descending_sorted_desc|].
  split; [intros c; apply filter_count_sorted_desc|].
  intros l D H. now apply sorted_desc_determined.
Qed.

Lemma analyze_headers_is_count_filter_sort_witness :
  [("the", 4%Z); ("european", 2%Z); ("crisis", 2%Z)]
  = WordAnalyzer.analyze_headers (WordAnalyzer.init (Some 2%Z))
      ["The European Union and the crisis";
       "The political crisis in Europe";
       "European leaders discuss the situation"].
Proof.
  apply (proj2 (proj2 (proj2 (proj2
           (analyze_headers_is_count_filter_sort
              (WordAnalyzer.init (Some 2%Z))
              ["The European Union and the crisis";
               "The political crisis in Europe";
               "European leaders discuss the situation"]))))).
  - simpl. repeat split; intros q H;
      repeat (destruct H as [<-|H]; [simpl; lia|]); contradiction.
  - intros c. reflexivity.
Defined.

Lemma max_count_bound (d : table) (w : string) (c : Z) :
  In (w, c) d -> (c <= max_count d)%Z.
Proof.
  induction d as [|[k x] d IH]; simpl; [tauto|].
  intros [E|I].
  - injection E as -> ->. lia.
  - specialize (IH I). lia.
Qed.

(** C6: with threshold 1 the result holds every word that occurs in the
    headers (with its number of occurrences); with a threshold above the
    largest count the result is empty. *)
Theorem analyze_headers_threshold_extremes (headers : list string) :
  (forall w,
     In w (keys (WordAnalyzer.analyze_headers
                   (WordAnalyzer.init (Some 1%Z)) headers)) <->
     In w (WordAnalyzer.all_words headers))
  /\ (forall w c,
        In (w, c) (WordAnalyzer.analyze_headers
                     (WordAnalyzer.init (Some 1%Z)) headers) <->
        In (w, c) (WordAnalyzer.count_words headers))
  /\ (forall self,
        (max_count (WordAnalyzer.count_words headers)
         < WordAnalyzer.min_occurrences self)%Z ->
        WordAnalyzer.analyze_headers self headers = []).
Proof.
  assert (H1 : WordAnalyzer.analyze_headers (WordAnalyzer.init (Some 1%Z))
                 headers
               = WordAnalyzer.sorted_desc (WordAnalyzer.count_words headers)).
  { rewrite analyze_headers_unfold. f_equal. apply filter_all.
    intros [w c] I. apply counts_positive in I. simpl.
    apply Z.geb_le. lia. }
  split; [|split].
  - intros w. rewrite H1. unfold keys. rewrite in_map_iff. split.
    + intros [[k c] [<- I]]. apply (proj1 (In_sorted_desc _ _)) in I.
      apply In_Counter in I. tauto.
    + intros I. apply In_keys_Counter in I. unfold keys in I.
      apply in_map_iff in I as [q [<- I]]. exists q.
      split; [reflexivity|]. now apply In_sorted_desc.
  - intros w c. rewrite H1. apply In_sorted_desc.
  - intros self Hmax. rewrite analyze_headers_unfold.
    rewrite filter_none; [reflexivity|].
    intros [w c] I. apply max_count_bound in I. simpl.
    destruct (Z.geb_spec c (WordAnalyzer.min_occurrences self));
      [lia | reflexivity].
Qed.

Lemma analyze_headers_threshold_extremes_witness :
  WordAnalyzer.analyze_headers (WordAnalyzer.init (Some 3%Z))
    ["The cat and the dog"; "A dog"] = [].
Proof.
  apply (proj2 (proj2 (analyze_headers_threshold_extremes
                         ["The cat and the dog"; "A dog"]))).
  vm_compute. reflexivity.
Defined.

(** C7: filtering a filtered table again with the same threshold changes
    nothing. *)
Theorem filter_repeated_words_idempotent (self : WordAnalyzer.t)
    (word_counts : table) :
  WordAnalyzer.filter_repeated_words self
    (WordAnalyzer.filter_repeated_words self word_counts)
  = WordAnalyzer.filter_repeated_words self word_counts.
Proof.
  set (p := fun wc : string * Z =>
              Z.geb (snd wc) (WordAnalyzer.min_occurrences self)).
  assert (Hsub : forall items acc q,
             In q (fold_left (fun d kv => dict_set (fst kv) (snd kv) d)
                     items acc) ->
             In q acc \/ In q items).
  { induction items as [|[k v] items IH]; intros acc q; simpl; [tauto|].
    intros I. apply IH in I as [I|I]; [|tauto].
    apply In_dict_set in I as [->|I]; tauto. }
  unfold WordAnalyzer.filter_repeated_words at 1. fold p.
  rewrite filter_all.
  - apply dict_of_items_distinct.
    unfold WordAnalyzer.filter_repeated_words.
    apply NoDup_keys_dict_of_items.
  - intros q I. unfold WordAnalyzer.filter_repeated_words, dict_of_items in I.
    apply Hsub in I as [[]|I]. fold p in I.
    now apply filter_In in I.
Qed.

(** ** Ties *)

Lemma filter_split {A : Type} (p : A -> bool) (l x t : list A) (a : A) :
  filter p l = x ++ a :: t ->
  exists x' t', l = x' ++ a :: t' /\ filter p x' = x /\ filter p t' = t.
Proof.
  revert x. induction l as [|b l IH]; intros x E; simpl in E.
  - destruct x; discriminate.
  - destruct (p b) eqn:Pb.
    + destruct x as [|y x]; simpl in E.
      * injection E as -> E. exists [], l. simpl. auto.
      * injection E as -> E. apply IH in E as [x' [t' [-> [Hx Ht]]]].
        exists (y :: x'), t'. simpl. rewrite Pb, Hx. auto.
    + apply IH in E as [x' [t' [-> [Hx Ht]]]].
      exists (b :: x'), t'. simpl. rewrite Pb. auto.
Qed.

Lemma filter_split2 {A : Type} (p : A -> bool) (l x y z : list A) (a b : A) :
  filter p l = x ++ a :: y ++ b :: z ->
  exists x' y' z', l = x' ++ a :: y' ++ b :: z'.
Proof.
  intros E. apply filter_split in E as [x' [t' [-> [_ Ht]]]].
  apply filter_split in Ht as [y' [z' [-> _]]]. eauto.
Qed.

Lemma first_index_skip (w x : string) (l : list string) :
  x <> w -> first_index w (x :: l) = S (first_index w l).
Proof. intros H. simpl. apply String.eqb_neq in H. now rewrite H. Qed.

Lemma first_seen_order (ws k1 k2 k3 : list string) (w1 w2 : string) :
  first_seen ws = k1 ++ w1 :: k2 ++ w2 :: k3 ->
  first_index w1 ws < first_index w2 ws.
Proof.
  revert k1 k2 k3. induction ws as [|w ws IH]; intros k1 k2 k3 E.
  - destruct k1; discriminate.
  - cbn [first_seen] in E.
    set (rest := filter (fun x => negb (String.eqb w x)) (first_seen ws)) in *.
    assert (Hrest : forall x, In x rest -> w <> x).
    { intros x I. apply filter_In in I as [_ I].
      apply negb_true_iff in I. now apply String.eqb_neq. }
    destruct k1 as [|k k1]; simpl in E; injection E as Ew E.
    + subst w1. rewrite (first_index_skip w2 w).
      * simpl. rewrite String.eqb_refl. lia.
      * apply Hrest. rewrite E. apply in_or_app. right. now left.
    + subst k. assert (I1 : In w1 rest).
      { rewrite E. apply in_or_app. right. now left. }
      assert (I2 : In w2 rest).
      { rewrite E. apply in_or_app. right. right.
        apply in_or_app. right. now left. }
      rewrite (first_index_skip w1 w), (first_index_skip w2 w) by auto.
      apply filter_split2 in E as [x' [y' [z' E]]].
      apply IH in E. lia.
Qed.

(** C10: when two entries of the result of [analyze_headers] have the same
    count, the one listed first is the word that was seen first in the
    headers. *)
Theorem analyze_headers_ties_first_seen (self : WordAnalyzer.t)
    (headers : list string) (pre mid post : table) (w1 w2 : string) (c : Z) :
  WordAnalyzer.analyze_headers self headers
  = pre ++ (w1, c) :: mid ++ (w2, c) :: post ->
  first_index w1 (WordAnalyzer.all_words headers)
  < first_index w2 (WordAnalyzer.all_words headers).
Proof.
  intros E. rewrite analyze_headers_unfold in E.
  apply (f_equal (filter (fun q => Z.eqb (snd q) c))) in E.
  rewrite filter_count_sorted_desc in E.
  rewrite filter_app in E. cbn [filter snd] in E.
  rewrite Z.eqb_refl, filter_app in E. cbn [filter snd] in E.
  rewrite Z.eqb_refl in E.
  rewrite filter_filter in E.
  apply filter_split2 in E as [x [y [z E]]].
  apply (f_equal keys) in E. unfold WordAnalyzer.count_words in E.
  rewrite keys_Counter in E.
  rewrite keys_app in E. cbn [keys map fst] in E.
  fold (keys (y ++ (w2, c) :: z)) in E. rewrite keys_app in E.
  cbn [keys map fst] in E.
  now apply first_seen_order in E.
Qed.

Lemma analyze_headers_ties_first_seen_witness :
  first_index "dog" (WordAnalyzer.all_words ["dog cat"; "cat dog sun sun sun"])
  < first_index "cat"
      (WordAnalyzer.all_words ["dog cat"; "cat dog sun sun sun"]).
Proof.
  apply (analyze_headers_ties_first_seen (WordAnalyzer.init (Some 2%Z))
           ["dog cat"; "cat dog sun sun sun"]
           [("sun", 3%Z)] [] [] "dog" "cat" 2%Z).
  vm_compute. reflexivity.
Defined.

(** ** Letter case *)

(** *** The second model agrees with the first on Latin-1 texts *)

Lemma length_of_string (s : string) :
  List.length (Wide.of_string s) = String.length s.
Proof.
  unfold Wide.of_string. rewrite length_map.
  induction s as [|c s IH]; simpl; [reflexivity | now rewrite IH].
Qed.

Lemma lower_of_string (s : string) :
  Wide.lower (Wide.of_string s) = Wide.of_string (lower s).
Proof.
  unfold Wide.lower, Wide.of_string.
  induction s as [|c s IH]; simpl; [reflexivity | now rewrite IH].
Qed.

Lemma boundary_of_string (p : option ascii) (s : string) :
  Wide.boundary (option_map Wide.Latin p) (hd_error (Wide.of_string s))
  = word_boundary p (first_char s).
Proof. destruct p, s; reflexivity. Qed.

Lemma greedy_letters_of_string (s : string) :
  Wide.greedy_letters (fun p r => Wide.boundary p (hd_error r))
    (Wide.of_string s)
  = match greedy_plus is_az (fun p r => word_boundary p (first_char r)) s
    with
    | Some (m, r) => Some (m, Wide.of_string r)
    | None => None
    end.
Proof.
  induction s as [|c s IH]; [reflexivity|].
  change (Wide.of_string (String c s))
    with (Wide.Latin c :: Wide.of_string s).
  cbn [Wide.greedy_letters greedy_plus Wide.az].
  destruct (is_az c); [|reflexivity].
  rewrite IH.
  destruct (greedy_plus is_az
              (fun p r => word_boundary p (first_char r)) s) as [[m r]|];
    [reflexivity|].
  pose proof (boundary_of_string (Some c) s) as B.
  cbn [option_map] in B. rewrite B.
  destruct (word_boundary (Some c) (first_char s)); reflexivity.
Qed.

Lemma match_here_of_string (p : option ascii) (s : string) :
  Wide.match_here (option_map Wide.Latin p) (Wide.of_string s)
  = match match_here p s with
    | Some (m, r) => Some (m, Wide.of_string r)
    | None => None
    end.
Proof.
  unfold Wide.match_here, match_here. rewrite boundary_of_string.
  destruct (word_boundary p (first_char s)); [|reflexivity].
  apply greedy_letters_of_string.
Qed.

Lemma after_match_of_string (p : option ascii) (m : string) :
  Wide.after_match (option_map Wide.Latin p) m
  = option_map Wide.Latin (last_char p m).
Proof.
  unfold Wide.after_match. destruct m as [|c m]; [reflexivity|].
  cbn [last_char].
  destruct (last_char (Some c) m) eqn:E; [reflexivity|].
  exfalso. revert c E. induction m as [|d m IH]; intros c E;
    [discriminate | exact (IH d E)].
Qed.

Lemma findall_from_of_string (fuel : nat) :
  forall p s,
    Wide.findall_from fuel (option_map Wide.Latin p) (Wide.of_string s)
    = findall_from fuel p s.
Proof.
  induction fuel as [|fuel IH]; intros p s; [reflexivity|].
  cbn [Wide.findall_from findall_from]. rewrite match_here_of_string.
  destruct (match_here p s) as [[m r]|].
  - now rewrite after_match_of_string, IH.
  - destruct s as [|c s]; [reflexivity|].
    change (Wide.of_string (String c s))
      with (Wide.Latin c :: Wide.of_string s).
    apply (IH (Some c) s).
Qed.

Lemma header_words_of_string (s : string) :
  Wide.header_words (Wide.of_string s) = WordAnalyzer.header_words s.
Proof.
  unfold Wide.header_words, WordAnalyzer.header_words, Wide.findall, findall.
  rewrite lower_of_string, length_of_string.
  now rewrite (findall_from_of_string _ None (lower s)).
Qed.

(** On headers within Latin-1 the two models give the same analysis. *)
Lemma analyze_headers_of_string (self : WordAnalyzer.t)
    (headers : list string) :
  Wide.analyze_headers self (map Wide.of_string headers)
  = WordAnalyzer.analyze_headers self headers.
Proof.
  unfold Wide.analyze_headers, WordAnalyzer.analyze_headers,
    Wide.count_words, WordAnalyzer.count_words.
  enough (E : Wide.all_words (map Wide.of_string headers)
              = WordAnalyzer.all_words headers) by now rewrite E.
  unfold Wide.all_words, WordAnalyzer.all_words.
  generalize (@nil string).
  induction headers as [|h hs IH]; intros acc; [reflexivity|].
  simpl. now rewrite header_words_of_string, IH.
Qed.

(** *** Case variants *)







Example test_case_variants :
  Wide.analyze_headers (WordAnalyzer.init (Some 1%Z))
    [Wide.of_string "The Cat"] = [("the", 1%Z); ("cat", 1%Z)]
  /\ WordAnalyzer.analyze_headers (WordAnalyzer.init (Some 1%Z)) ["The Cat"]
     = WordAnalyzer.analyze_headers (WordAnalyzer.init (Some 1%Z)) ["the cat"]
  /\ Wide.header_words
       (Wide.KelvinSign :: Wide.of_string "elvin scale") = ["kelvin"; "scale"]
  /\ Wide.header_words (Wide.DotlessI :: Wide.of_string "ce box") = ["box"].
Proof. vm_compute. auto. Qed.

(** ** Translation *)

Section Translation.

Context {St : Type} (self : ArticleTranslator.t St).

Lemma translate_titles_acc (titles acc : list string) (st : St) :
  fold_left (ArticleTranslator.title_step self) titles (st, acc)
  = (fst (fold_left (ArticleTranslator.title_step self) titles (st, [])),
     acc ++ snd (fold_left (ArticleTranslator.title_step self) titles
                   (st, []))).
Proof.
  revert acc st. induction titles as [|t ts IH]; intros acc st; simpl.
  - now rewrite app_nil_r.
  - unfold ArticleTranslator.title_step at 2 4 6. simpl.
    destruct (ArticleTranslator.translate_text self t
                ArticleTranslator.default_retry_count st) as [st' o].
    rewrite (IH (acc ++ [o])), (IH [o]). simpl.
    now rewrite <- app_assoc.
Qed.

Lemma translate_titles_cons (t : string) (ts : list string) (st : St) :
  ArticleTranslator.translate_titles self (t :: ts) st
  = (fst (ArticleTranslator.translate_titles self ts
            (fst (ArticleTranslator.translate_text self t
                    ArticleTranslator.default_retry_count st))),
     snd (ArticleTranslator.translate_text self t
            ArticleTranslator.default_retry_count st)
     :: snd (ArticleTranslator.translate_titles self ts
               (fst (ArticleTranslator.translate_text self t
                       ArticleTranslator.default_retry_count st)))).
Proof.
  unfold ArticleTranslator.translate_titles. simpl.
  unfold ArticleTranslator.title_step at 2 4. simpl.
  destruct (ArticleTranslator.translate_text self t
              ArticleTranslator.default_retry_count st) as [st' o].
  now rewrite translate_titles_acc.
Qed.

Lemma translate_titles_length (titles : list string) (st : St) :
  List.length (snd (ArticleTranslator.translate_titles self titles st))
  = List.length titles.
Proof.
  revert st. induction titles as [|t ts IH]; intros st; [reflexivity|].
  rewrite translate_titles_cons. simpl. now rewrite IH.
Qed.

Lemma translate_titles_nth (titles : list string) (st : St) (i : nat)
    (title : string) :
  nth_error titles i = Some title ->
  nth_error (snd (ArticleTranslator.translate_titles self titles st)) i
  = Some (snd (ArticleTranslator.translate_text self title
                 ArticleTranslator.default_retry_count
                 (fst (ArticleTranslator.translate_titles self
                         (firstn i titles) st)))).
Proof.
  revert st i. induction titles as [|t ts IH]; intros st i H.
  - destruct i; discriminate.
  - rewrite translate_titles_cons. destruct i as [|i]; simpl in H.
    + injection H as ->. reflexivity.
    + cbn [snd nth_error firstn]. rewrite (IH _ i H).
      now rewrite translate_titles_cons.
Qed.

Lemma attempt_loop_all_fail (text : string) (retry_count : nat) :
  forall k a st,
    ArticleTranslator.calls_fail self text k st = true ->
    snd (ArticleTranslator.attempt_loop self text retry_count (seq a k) st)
    = text.
Proof.
  induction k as [|k IH]; intros a st H; simpl in *; [reflexivity|].
  destruct (ArticleTranslator.translator self st text
              (ArticleTranslator.source_lang self)
              (ArticleTranslator.target_lang self)) as [st' [tr|]];
    [discriminate|].
  destruct (Nat.ltb a (retry_count - 1)); [now apply IH | reflexivity].
Qed.

Lemma translate_text_all_fail (text : string) (retry_count : nat) (st : St) :
  ArticleTranslator.calls_fail self text retry_count st = true ->
  snd (ArticleTranslator.translate_text self text retry_count st) = text.
Proof.
  intros H. unfold ArticleTranslator.translate_text.
  destruct (String.eqb_spec text "") as [->|_]; [reflexivity|].
  now apply attempt_loop_all_fail.
Qed.

(** C9: [translate_titles] gives one string per title, in the order of the
    titles: the i-th string is what [translate_text] gives for the i-th
    title in the state the service is in after the titles before it; when
    the three calls for that title all raise, the string is the title
    itself, and the titles after it are translated all the same. *)
Theorem translate_titles_one_per_title (titles : list string) (st : St) :
  List.length (snd (ArticleTranslator.translate_titles self titles st))
  = List.length titles
  /\ forall i title,
       nth_error titles i = Some title ->
       nth_error (snd (ArticleTranslator.translate_titles self titles st)) i
       = Some (snd (ArticleTranslator.translate_text self title
                      ArticleTranslator.default_retry_count
                      (fst (ArticleTranslator.translate_titles self
                              (firstn i titles) st))))
       /\ (ArticleTranslator.calls_fail self title
             ArticleTranslator.default_retry_count
             (fst (ArticleTranslator.translate_titles self
                     (firstn i titles) st)) = true ->
           nth_error
             (snd (ArticleTranslator.translate_titles self titles st)) i
           = Some title).
Proof.
  split; [apply translate_titles_length|].
  intros i title H. split; [now apply translate_titles_nth|].
  intros F. rewrite (translate_titles_nth titles st i title H).
  now rewrite translate_text_all_fail.
Qed.

End Translation.

Lemma translate_titles_one_per_title_witness :
  nth_error
    (snd (ArticleTranslator.translate_titles (ArticleTranslator.flaky 4)
            ["uno"; ""; "dos"; "tres"] 0)) 0
  = Some "uno".
Proof.
  apply (proj2 (translate_titles_one_per_title (ArticleTranslator.flaky 4)
                  ["uno"; ""; "dos"; "tres"] 0) 0 "uno").
  - reflexivity.
  - vm_compute. reflexivity.
Defined.

(** ** The normalizer *)

Lemma append_nil_r (s : string) : (s ++ "")%string = s.
Proof. induction s as [|c s IH]; simpl; [reflexivity | now rewrite IH]. Qed.

Lemma append_assoc (s1 s2 s3 : string) :
  ((s1 ++ s2) ++ s3)%string = (s1 ++ (s2 ++ s3))%string.
Proof. induction s1 as [|c s1 IH]; simpl; [reflexivity | now rewrite IH]. Qed.

Lemma length_append (s1 s2 : string) :
  String.length (s1 ++ s2) = String.length s1 + String.length s2.
Proof. induction s1 as [|c s1 IH]; simpl; [reflexivity | now rewrite IH]. Qed.

Lemma is_az_is_word (c : ascii) : is_az c = true -> is_word c = true.
Proof.
  destruct c as [[] [] [] [] [] [] [] []]; vm_compute; intros H;
    first [reflexivity | discriminate H].
Qed.

Lemma not_letter_first_char (s : string) :
  not_letter (first_char s) = true ->
  s = "" \/ exists c s', s = String c s' /\ is_az c = false.
Proof.
  destruct s as [|c s']; simpl; [now left|].
  intros H. right. exists c, s'. split; [reflexivity|].
  now apply negb_true_iff.
Qed.

(** Every string starts with a maximal run of letters, possibly empty. *)
Lemma leading_run (s : string) :
  exists r rest,
    s = (r ++ rest)%string /\ all_chars is_az r = true
    /\ not_letter (first_char rest) = true.
Proof.
  induction s as [|c s [r [rest [E [Hr Hrest]]]]].
  - exists "", "". auto.
  - destruct (is_az c) eqn:Hc.
    + exists (String c r), rest. simpl. rewrite Hc, Hr, <- E. auto.
    + exists "", (String c s). simpl. rewrite Hc. auto.
Qed.

Lemma scan_runs_letters (sep : option ascii -> bool) (left_ok : bool)
    (r run rest : string) :
  all_chars is_az r = true ->
  scan_runs sep left_ok run (r ++ rest)
  = scan_runs sep left_ok (run ++ r) rest.
Proof.
  revert run. induction r as [|c r IH]; intros run H; simpl in *.
  - now rewrite append_nil_r.
  - apply andb_true_iff in H as [Hc Hr]. rewrite Hc, IH by assumption.
    now rewrite append_assoc.
Qed.

(** A run that is not listed leaves no trace. *)
Lemma scan_runs_dropped (sep : option ascii -> bool) (left_ok : bool)
    (run run' rest : string) :
  not_letter (first_char rest) = true ->
  (left_ok && sep (first_char rest))%bool = false ->
  scan_runs sep left_ok run rest = scan_runs sep false run' rest.
Proof.
  intros Hrest Hno. destruct rest as [|c rest]; simpl in *.
  - rewrite andb_false_r. simpl.
    rewrite <- andb_assoc, Hno. now rewrite andb_false_r.
  - apply negb_true_iff in Hrest. rewrite Hrest.
    rewrite andb_false_r. simpl.
    now rewrite <- andb_assoc, Hno, andb_false_r.
Qed.

(** After a run the scan starts afresh. *)
Lemma scan_runs_restart (sep : option ascii -> bool) (left_ok : bool)
    (rest : string) :
  not_letter (first_char rest) = true ->
  scan_runs sep left_ok "" rest = scan_runs sep true "" rest.
Proof.
  intros Hrest. destruct rest as [|c rest]; simpl in *; [reflexivity|].
  apply negb_true_iff in Hrest. now rewrite Hrest.
Qed.

Lemma greedy_plus_run (r rest : string) :
  r <> "" -> all_chars is_az r = true ->
  not_letter (first_char rest) = true ->
  greedy_plus is_az (fun p x => word_boundary p (first_char x))
    (r ++ rest)
  = if not_word (first_char rest) then Some (r, rest) else None.
Proof.
  intros Hne Hr Hrest. induction r as [|c r IH]; [contradiction|].
  simpl in Hr. apply andb_true_iff in Hr as [Hc Hr].
  cbn [append greedy_plus]. rewrite Hc.
  destruct r as [|c' r].
  - cbn [append].
    assert (G : greedy_plus is_az
                  (fun p x => word_boundary p (first_char x)) rest = None).
    { apply not_letter_first_char in Hrest as [->|[d [s' [-> Hd]]]];
        simpl; [reflexivity | now rewrite Hd]. }
    rewrite G. unfold word_boundary, not_word. cbn [is_word_at].
    rewrite (is_az_is_word c Hc). simpl.
    destruct (is_word_at (first_char rest)); reflexivity.
  - rewrite IH by (discriminate || assumption).
    destruct (not_word (first_char rest)); [reflexivity|].
    simpl in Hr. apply andb_true_iff in Hr as [Hc' _].
    cbn [append first_char]. unfold word_boundary. cbn [is_word_at].
    now rewrite (is_az_is_word c Hc), (is_az_is_word c' Hc').
Qed.

Lemma match_here_run (prev : option ascii) (r rest : string) :
  r <> "" -> all_chars is_az r = true ->
  not_letter (first_char rest) = true ->
  match_here prev (r ++ rest)
  = if (not_word prev && not_word (first_char rest))%bool
    then Some (r, rest) else None.
Proof.
  intros Hne Hr Hrest. unfold match_here.
  rewrite greedy_plus_run by assumption.
  destruct r as [|c r]; [contradiction|].
  simpl in Hr. apply andb_true_iff in Hr as [Hc _].
  cbn [append first_char]. unfold word_boundary, not_word.
  cbn [is_word_at]. rewrite (is_az_is_word c Hc).
  destruct (is_word_at prev); reflexivity.
Qed.

Lemma match_here_no_letter (prev : option ascii) (s : string) :
  not_letter (first_char s) = true -> match_here prev s = None.
Proof.
  intros H. unfold match_here.
  destruct (word_boundary prev (first_char s)); [|reflexivity].
  apply not_letter_first_char in H as [->|[c [s' [-> Hc]]]]; simpl;
    [reflexivity | now rewrite Hc].
Qed.

Lemma findall_from_scan_runs (n : nat) :
  forall s, String.length s <= n ->
  forall fuel prev, String.length s < fuel ->
    findall_from fuel prev s = scan_runs not_word (not_word prev) "" s.
Proof.
  induction n as [|n IH]; intros s Hn fuel prev Hf.
  - destruct s; [|simpl in Hn; lia].
    destruct fuel; [lia|]. cbn [findall_from].
    now rewrite match_here_no_letter.
  - destruct fuel as [|fuel]; [lia|].
    destruct (leading_run s) as [r [rest [-> [Hr Hrest]]]].
    destruct r as [|c r].
    + (* no letter at this position *)
      cbn [append] in *. cbn [findall_from].
      rewrite match_here_no_letter by assumption.
      apply not_letter_first_char in Hrest as [->|[d [s' [-> Hd]]]];
        [reflexivity|].
      simpl in Hn, Hf. rewrite IH by lia.
      simpl. now rewrite Hd.
    + (* a run of letters starts here *)
      rewrite scan_runs_letters by assumption. cbn [append].
      pose proof Hr as Hr'. simpl in Hr'.
      apply andb_true_iff in Hr' as [Hc Hr'].
      rewrite length_append in Hn, Hf. simpl in Hn, Hf.
      cbn [findall_from].
      change (String c (r ++ rest)) with (String c r ++ rest)%string.
      rewrite match_here_run by (discriminate || assumption).
      destruct (not_word prev && not_word (first_char rest))%bool eqn:B.
      * apply andb_true_iff in B as [Bp Br]. rewrite Bp.
        rewrite IH by lia.
        rewrite (scan_runs_restart not_word _ rest Hrest).
        apply not_letter_first_char in Hrest as [->|[d [s' [-> Hd]]]].
        -- reflexivity.
        -- simpl in Br. simpl. rewrite Hd, Br. reflexivity.
      * cbn [append]. rewrite IH by (rewrite ?length_append; lia).
        rewrite scan_runs_letters by assumption. cbn [append].
        replace (not_word (Some c)) with false
          by (unfold not_word; simpl; now rewrite (is_az_is_word c Hc)).
        symmetry. apply scan_runs_dropped; assumption.
Qed.

(** The matcher finds the maximal runs of letters that have no word
    character on either side. *)
Lemma findall_bounded_runs (s : string) :
  findall s = bounded_runs not_word s.
Proof.
  unfold findall, bounded_runs.
  apply (findall_from_scan_runs (String.length s)); lia.
Qed.

(** *** Which strings the scan lists *)

Lemma last_char_nonempty (p q : option ascii) (s : string) :
  s <> "" -> last_char p s = last_char q s.
Proof. destruct s; [contradiction | reflexivity]. Qed.

Lemma string_cons_split (c : ascii) (s r post : string) :
  String c s = (r ++ post)%string ->
  (r = "" /\ post = String c s)
  \/ exists r', r = String c r' /\ s = (r' ++ post)%string.
Proof.
  destruct r as [|d r]; simpl; intros E.
  - left. auto.
  - injection E as -> ->. right. eauto.
Qed.

Lemma append_eq_nil (s1 s2 : string) :
  (s1 ++ s2)%string = "" -> s1 = "" /\ s2 = "".
Proof. destruct s1; simpl; [auto | discriminate]. Qed.

Lemma run_here_letter (sep : option ascii -> bool) (left_ok : bool)
    (run s t : string) (c : ascii) :
  is_az c = true ->
  run_here sep left_ok run (String c s) t <->
  run_here sep left_ok (run ++ String c "") s t.
Proof.
  intros Hc. split.
  - intros [r [post [E [Et [Hne [Hr [Hp [Hl Hs]]]]]]]].
    apply string_cons_split in E as [[-> ->]|[r' [-> ->]]].
    + simpl in Hp. rewrite Hc in Hp. discriminate.
    + simpl in Hr. apply andb_true_iff in Hr as [_ Hr].
      exists r', post. rewrite append_assoc. simpl. auto 10.
  - intros [r [post [-> [Et [Hne [Hr [Hp [Hl Hs]]]]]]]].
    exists (String c r), post. rewrite append_assoc in Et. simpl in *.
    rewrite Hc, Hr. auto 10.
Qed.

Lemma run_later_letter (sep : option ascii -> bool) (s t : string)
    (c : ascii) :
  is_az c = true ->
  run_later sep (String c s) t <-> run_later sep s t.
Proof.
  intros Hc. split.
  - intros [pre [post [E [Hpre [Hne [Ht [Hl [Hsl [Hp Hs]]]]]]]]].
    destruct pre as [|d pre]; [contradiction|].
    simpl in E. injection E as <- ->.
    destruct pre as [|e pre].
    + simpl in Hl. rewrite Hc in Hl. discriminate.
    + exists (String e pre), post. simpl in *. repeat split; auto.
      discriminate.
  - intros [pre [post [-> [Hpre [Hne [Ht [Hl [Hsl [Hp Hs]]]]]]]]].
    exists (String c pre), post.
    rewrite (last_char_nonempty None (Some c) pre Hpre) in Hl, Hsl.
    simpl. repeat split; auto. discriminate.
Qed.

Lemma run_here_stop (sep : option ascii -> bool) (left_ok : bool)
    (run s t : string) (c : ascii) :
  is_az c = false ->
  run_here sep left_ok run (String c s) t <->
  t = run /\ run <> "" /\ left_ok = true /\ sep (Some c) = true.
Proof.
  intros Hc. split.
  - intros [r [post [E [Et [Hne [Hr [Hp [Hl Hs]]]]]]]].
    apply string_cons_split in E as [[-> ->]|[r' [-> ->]]].
    + rewrite append_nil_r in Et. subst t. simpl in Hs. auto.
    + simpl in Hr. rewrite Hc in Hr. discriminate.
  - intros [-> [Hne [Hl Hs]]]. exists "", (String c s).
    rewrite append_nil_r. simpl. rewrite Hc. auto 10.
Qed.

Lemma run_later_stop (sep : option ascii -> bool) (s t : string)
    (c : ascii) :
  is_az c = false ->
  run_later sep (String c s) t <->
  run_here sep (sep (Some c)) "" s t \/ run_later sep s t.
Proof.
  intros Hc. split.
  - intros [pre [post [E [Hpre [Hne [Ht [Hl [Hsl [Hp Hs]]]]]]]]].
    destruct pre as [|d pre]; [contradiction|].
    simpl in E. injection E as <- ->.
    destruct pre as [|e pre].
    + left. exists t, post. simpl in *. auto 10.
    + right. exists (String e pre), post. simpl in *. repeat split; auto.
      discriminate.
  - intros [[r [post [-> [Et [Hne [Hr [Hp [Hl Hs]]]]]]]]
           |[pre [post [-> [Hpre [Hne [Ht [Hl [Hsl [Hp Hs]]]]]]]]]].
    + simpl in Et. subst r. exists (String c ""), post. simpl.
      rewrite Hc. repeat split; auto. discriminate.
    + exists (String c pre), post.
      rewrite (last_char_nonempty None (Some c) pre Hpre) in Hl, Hsl.
      simpl. repeat split; auto. discriminate.
Qed.

Lemma In_scan_runs (sep : option ascii -> bool) (s : string) :
  forall left_ok run t,
    In t (scan_runs sep left_ok run s) <->
    run_here sep left_ok run s t \/ run_later sep s t.
Proof.
  induction s as [|c s IH]; intros left_ok run t.
  - cbn [scan_runs]. split.
    + intros I.
      destruct (negb (String.eqb run "") && left_ok && sep None)%bool eqn:B;
        [|contradiction].
      destruct I as [<-|[]].
      apply andb_true_iff in B as [B Hs].
      apply andb_true_iff in B as [B Hl].
      apply negb_true_iff, String.eqb_neq in B.
      left. exists "", "". simpl. rewrite append_nil_r.
      repeat split; auto.
    + intros [[r [post [E [Et [Hne [Hr [Hp [Hl Hs]]]]]]]]
             |[pre [post [E [Hpre _]]]]].
      * symmetry in E. apply append_eq_nil in E as [-> ->].
        rewrite append_nil_r in Et. subst t. simpl in Hs.
        apply String.eqb_neq in Hne. rewrite Hne, Hl, Hs. now left.
      * symmetry in E. apply append_eq_nil in E as [-> _]. contradiction.
  - cbn [scan_runs]. destruct (is_az c) eqn:Hc.
    + rewrite IH, (run_here_letter sep left_ok run s t c Hc),
        (run_later_letter sep s t c Hc). reflexivity.
    + rewrite in_app_iff, IH, (run_here_stop sep left_ok run s t c Hc),
        (run_later_stop sep s t c Hc).
      enough (H : In t (if (negb (String.eqb run "") && left_ok
                            && sep (Some c))%bool then [run] else []) <->
                  t = run /\ run <> "" /\ left_ok = true
                  /\ sep (Some c) = true) by (rewrite H; reflexivity).
      destruct (String.eqb_spec run "") as [E|E]; simpl.
      * split; [contradiction | tauto].
      * destruct left_ok, (sep (Some c)); simpl;
          intuition (auto; discriminate).
Qed.

(** The runs listed by [bounded_runs] are the maximal runs of letters with
    accepted neighbours. *)
Lemma In_bounded_runs (sep : option ascii -> bool) (s t : string) :
  In t (bounded_runs sep s) <-> bounded_run_of sep s t.
Proof.
  unfold bounded_runs. rewrite In_scan_runs. split.
  - intros [[r [post [-> [Et [Hne [Hr [Hp [Hl Hs]]]]]]]]
           |[pre [post [-> [Hpre [Hne [Ht [Hl [Hsl [Hp Hs]]]]]]]]]].
    + simpl in Et. subst r. exists "", post. simpl. auto 10.
    + exists pre, post. auto 10.
  - intros [pre [post [-> [Hne [Ht [Hl [Hsl [Hp Hs]]]]]]]].
    destruct pre as [|d pre].
    + left. exists t, post. simpl in *. auto 10.
    + right. exists (String d pre), post. repeat split; auto. discriminate.
Qed.

Lemma is_az_no_punctuation_or_digit (c : ascii) :
  is_az c = true -> is_punctuation_or_digit c = false.
Proof.
  destruct c as [[] [] [] [] [] [] [] []]; vm_compute; intros H;
    first [reflexivity | discriminate H].
Qed.

Lemma all_chars_impl (p q : ascii -> bool) (s : string) :
  (forall c, p c = true -> q c = true) ->
  all_chars p s = true -> all_chars q s = true.
Proof.
  intros Hpq. induction s as [|c s IH]; simpl; [reflexivity|].
  intros H. apply andb_true_iff in H as [Hc Hs].
  now rewrite (Hpq c Hc), IH.
Qed.

Lemma long_enough_spec (t : string) :
  long_enough t = true <-> 2 < String.length t.
Proof. unfold long_enough. apply Nat.ltb_lt. Qed.

(** The normalizer in the words of the specification lists the maximal
    runs of letters of the lowercased string that are longer than 2. *)
Lemma In_spec_normalize (s t : string) :
  In t (spec_normalize s) <->
  bounded_run_of not_letter (lower s) t /\ 2 < String.length t.
Proof.
  unfold spec_normalize.
  now rewrite filter_In, In_bounded_runs, long_enough_spec.
Qed.

(** C2, as stated, fails: in "covid19" the letters "covid" are a maximal
    run of lowercase letters between the string edge and a digit, of
    length 5, yet the code lists no word for this header. *)
Lemma covid19_gives_no_word :
  In "covid" (spec_normalize "covid19")
  /\ ~ In "covid" (WordAnalyzer.header_words "covid19")
  /\ WordAnalyzer.header_words "covid19" <> spec_normalize "covid19".
Proof.
  split; [|split].
  - vm_compute. now left.
  - vm_compute. tauto.
  - vm_compute. discriminate.
Qed.

(** C2 (amended): the words of a header are the maximal runs of the
    letters a-z of the lowercased header that have no word character
    (letter, digit, underscore) on either side, in their order, those of
    length at most 2 left out; a word holds letters a-z only, so no digit
    and no punctuation. *)
Theorem header_words_word_bounded_runs (s : string) :
  WordAnalyzer.header_words s = word_bounded_normalize s
  /\ (forall t,
        In t (WordAnalyzer.header_words s) <->
        bounded_run_of not_word (lower s) t /\ 2 < String.length t)
  /\ (forall t,
        In t (WordAnalyzer.header_words s) ->
        all_chars is_az t = true
        /\ all_chars (fun c => negb (is_punctuation_or_digit c)) t = true).
Proof.
  assert (E : WordAnalyzer.header_words s = word_bounded_normalize s).
  { unfold WordAnalyzer.header_words, word_bounded_normalize.
    now rewrite findall_bounded_runs. }
  assert (M : forall t,
             In t (WordAnalyzer.header_words s) <->
             bounded_run_of not_word (lower s) t /\ 2 < String.length t).
  { intros t. rewrite E. unfold word_bounded_normalize.
    now rewrite filter_In, In_bounded_runs, long_enough_spec. }
  split; [exact E|]. split; [exact M|].
  intros t I. apply M in I as [[pre [post [_ [_ [Ht _]]]]] _].
  split; [exact Ht|].
  apply (all_chars_impl is_az); [|exact Ht].
  intros c Hc. now rewrite (is_az_no_punctuation_or_digit c Hc).
Qed.

(** * Further properties *)

(** ** [truncate_text] *)

Example test_truncate_text :
  Utils.truncate_text "abcdefgh" 5 = "abcde..."
  /\ Utils.truncate_text "abcde" 5 = "abcde"
  /\ Utils.truncate_text "abcdefgh" (-2) = "abcdef...".
Proof. vm_compute. auto. Qed.

Example test_sanitize_filename :
  Utils.sanitize_filename "Que pasa: el  fin?" 100 = "Que_pasa_el_fin"
  /\ Utils.sanitize_filename "__a / b__" 100 = "a_b"
  /\ Utils.sanitize_filename "abc def" 4 = "abc".
Proof. vm_compute. auto. Qed.

Lemma length_take (n : nat) (s : string) :
  String.length (Utils.take n s) = Nat.min n (String.length s).
Proof.
  revert s. induction n as [|n IH]; intros [|c s]; simpl; auto.
Qed.

Lemma take_all (n : nat) (s : string) :
  String.length s <= n -> Utils.take n s = s.
Proof.
  revert s. induction n as [|n IH]; intros [|c s]; simpl; intros H;
    try reflexivity; [lia|].
  f_equal. apply IH. lia.
Qed.

Lemma take_append_exact (a b : string) :
  Utils.take (String.length a) (a ++ b)%string = a.
Proof. induction a as [|c a IH]; simpl; [now destruct b | now rewrite IH]. Qed.

Lemma slice_to_nonneg (n : Z) (s : string) :
  (0 <= n)%Z -> Utils.slice_to n s = Utils.take (Z.to_nat n) s.
Proof.
  intros H. unfold Utils.slice_to.
  destruct (Z.leb_spec 0 n); [reflexivity | lia].
Qed.

Lemma take_is_prefix (n : nat) (s : string) :
  exists rest, s = (Utils.take n s ++ rest)%string.
Proof.
  revert s. induction n as [|n IH]; intros s.
  - exists s. now destruct s.
  - destruct s as [|c s]; [now exists ""|].
    destruct (IH s) as [rest E]. exists rest. simpl. now rewrite <- E.
Qed.

(** X1: a text of at most [max_length] characters comes back unchanged; a
    longer one comes back as a prefix of the text followed by three dots,
    the prefix holding the first [max_length] characters when
    [max_length] is not negative (so the result has [max_length + 3]
    characters), and all but the last [- max_length] characters when it
    is. *)
Theorem truncate_text_length (text : string) (max_length : Z) :
  ((Z.of_nat (String.length text) <= max_length)%Z ->
   Utils.truncate_text text max_length = text)
  /\ ((max_length < Z.of_nat (String.length text))%Z ->
      exists kept rest,
        text = (kept ++ rest)%string
        /\ Utils.truncate_text text max_length = (kept ++ "...")%string
        /\ Z.of_nat (String.length kept)
           = (if Z.leb 0 max_length then max_length
              else Z.max 0 (Z.of_nat (String.length text) + max_length))%Z)
  /\ Z.of_nat (String.length (Utils.truncate_text text max_length))
     = (if Z.leb (Z.of_nat (String.length text)) max_length
        then Z.of_nat (String.length text)
        else if Z.leb 0 max_length then max_length + 3
             else Z.max 0 (Z.of_nat (String.length text) + max_length) + 3)%Z.
Proof.
  unfold Utils.truncate_text, Utils.slice_to.
  destruct (Z.leb_spec (Z.of_nat (String.length text)) max_length) as [H|H].
  - split; [reflexivity|]. split; [lia | reflexivity].
  - split; [lia|]. split.
    + intros _. destruct (Z.leb_spec 0 max_length).
      * destruct (take_is_prefix (Z.to_nat max_length) text) as [rest E].
        exists (Utils.take (Z.to_nat max_length) text), rest.
        split; [exact E|]. split; [reflexivity|]. rewrite length_take. lia.
      * destruct (take_is_prefix
                    (Z.to_nat (Z.of_nat (String.length text) + max_length))
                    text) as [rest E].
        exists (Utils.take
                  (Z.to_nat (Z.of_nat (String.length text) + max_length))
                  text), rest.
        split; [exact E|]. split; [reflexivity|]. rewrite length_take. lia.
    + rewrite length_append. simpl.
      destruct (Z.leb_spec 0 max_length); rewrite length_take; lia.
Qed.

Lemma truncate_text_length_witness :
  exists kept rest,
    "abcdefgh" = (kept ++ rest)%string
    /\ Utils.truncate_text "abcdefgh" 5 = (kept ++ "...")%string
    /\ Z.of_nat (String.length kept) = 5%Z.
Proof.
  apply (proj1 (proj2 (truncate_text_length "abcdefgh" 5))). reflexivity.
Defined.

(** X2: with a non-negative [max_length], truncating a truncated text
    again changes nothing. *)
Theorem truncate_text_idempotent (text : string) (max_length : Z) :
  (0 <= max_length)%Z ->
  Utils.truncate_text (Utils.truncate_text text max_length) max_length
  = Utils.truncate_text text max_length.
Proof.
  intros Hm.
  destruct (Z.leb_spec (Z.of_nat (String.length text)) max_length) as [H|H].
  - assert (E : Utils.truncate_text text max_length = text).
    { unfold Utils.truncate_text.
      destruct (Z.leb_spec (Z.of_nat (String.length text)) max_length);
        [reflexivity | lia]. }
    now rewrite !E.
  - set (a := Utils.take (Z.to_nat max_length) text).
    assert (La : String.length a = Z.to_nat max_length).
    { unfold a. rewrite length_take. lia. }
    assert (E : Utils.truncate_text text max_length = (a ++ "...")%string).
    { unfold Utils.truncate_text.
      destruct (Z.leb_spec (Z.of_nat (String.length text)) max_length);
        [lia|].
      now rewrite slice_to_nonneg by assumption. }
    rewrite E. unfold Utils.truncate_text.
    rewrite length_append, La. simpl.
    destruct (Z.leb_spec (Z.of_nat (Z.to_nat max_length + 3)) max_length);
      [lia|].
    rewrite slice_to_nonneg by assumption.
    rewrite <- La. now rewrite take_append_exact.
Qed.

Lemma truncate_text_idempotent_witness :
  Utils.truncate_text (Utils.truncate_text "abcdefgh" 5) 5
  = Utils.truncate_text "abcdefgh" 5.
Proof. apply truncate_text_idempotent. lia. Defined.

(** ** [sanitize_filename] *)

Lemma sub_class_removes (cls : ascii -> bool) (fuel : nat) :
  forall s, String.length s < fuel ->
    all_chars (fun c => negb (cls c))
      (Utils.sub_from fuel (Utils.match_class cls) "" s) = true.
Proof.
  induction fuel as [|fuel IH]; intros s H; [lia|].
  destruct s as [|c s]; simpl; [reflexivity|].
  simpl in H. destruct (cls c) eqn:Hc; simpl.
  - apply IH. lia.
  - rewrite Hc. simpl. apply IH. lia.
Qed.

Lemma sub_class_unchanged (cls : ascii -> bool) (fuel : nat) :
  forall s, String.length s < fuel ->
    all_chars (fun c => negb (cls c)) s = true ->
    Utils.sub_from fuel (Utils.match_class cls) "" s = s.
Proof.
  induction fuel as [|fuel IH]; intros s H A; [lia|].
  destruct s as [|c s]; simpl; [reflexivity|].
  simpl in H, A. apply andb_true_iff in A as [Hc A].
  apply negb_true_iff in Hc. rewrite Hc. f_equal. apply IH; [lia | exact A].
Qed.

Lemma sub_class_length (cls : ascii -> bool) (fuel : nat) :
  forall s,
    String.length (Utils.sub_from fuel (Utils.match_class cls) "" s)
    <= String.length s.
Proof.
  induction fuel as [|fuel IH]; intros s; simpl; [lia|].
  destruct s as [|c s]; simpl; [lia|].
  destruct (cls c); simpl; specialize (IH s); lia.
Qed.

Lemma replace_blank_clean (s : string) :
  all_chars (fun c => negb (Utils.is_invalid_char c)) s = true ->
  all_chars Utils.is_clean_char (Utils.replace_char " " "_" s) = true.
Proof.
  induction s as [|c s IH]; simpl; [reflexivity|].
  intros A. apply andb_true_iff in A as [Hc A]. rewrite (IH A), andb_true_r.
  destruct (Ascii.eqb_spec c " "%char) as [->|Hne]; [reflexivity|].
  unfold Utils.is_clean_char. rewrite Hc. simpl.
  apply negb_true_iff. unfold Utils.is_blank. apply N.eqb_neq.
  intros E. apply Hne. rewrite <- (ascii_N_embedding c).
  unfold code in E. now rewrite E.
Qed.

Lemma replace_blank_unchanged (s : string) :
  all_chars Utils.is_clean_char s = true ->
  Utils.replace_char " " "_" s = s.
Proof.
  induction s as [|c s IH]; simpl; [reflexivity|].
  intros A. apply andb_true_iff in A as [Hc A]. rewrite (IH A).
  destruct (Ascii.eqb_spec c " "%char) as [->|Hne]; [discriminate Hc|].
  reflexivity.
Qed.

Lemma length_replace_char (old new : ascii) (s : string) :
  String.length (Utils.replace_char old new s) = String.length s.
Proof. induction s as [|c s IH]; simpl; [reflexivity | now rewrite IH]. Qed.

Lemma is_underscore_eq (c : ascii) :
  Utils.is_underscore c = true -> c = "_"%char.
Proof.
  unfold Utils.is_underscore, code. intros H. apply N.eqb_eq in H.
  rewrite <- (ascii_N_embedding c). now rewrite H.
Qed.

Lemma length_lstrip (p : ascii -> bool) (s : string) :
  String.length (Utils.lstrip p s) <= String.length s.
Proof.
  induction s as [|c s IH]; simpl; [lia|]. destruct (p c); simpl; lia.
Qed.

Lemma lstrip_first_char (s : string) :
  Utils.is_underscore_at (first_char (Utils.lstrip Utils.is_underscore s))
  = false.
Proof.
  induction s as [|c s IH]; simpl; [reflexivity|].
  destruct (Utils.is_underscore c) eqn:Hc; [exact IH | simpl; exact Hc].
Qed.

Lemma lstrip_unchanged (s : string) :
  Utils.is_underscore_at (first_char s) = false ->
  Utils.lstrip Utils.is_underscore s = s.
Proof. destruct s as [|c s]; simpl; [reflexivity | now intros ->]. Qed.

Lemma all_chars_lstrip (p q : ascii -> bool) (s : string) :
  all_chars q s = true -> all_chars q (Utils.lstrip p s) = true.
Proof.
  induction s as [|c s IH]; simpl; [reflexivity|].
  intros A. destruct (p c); [|exact A].
  apply andb_true_iff in A as [_ A]. auto.
Qed.

Lemma no_double_underscore_lstrip (p : ascii -> bool) (s : string) :
  Utils.no_double_underscore s = true ->
  Utils.no_double_underscore (Utils.lstrip p s) = true.
Proof.
  induction s as [|c s IH]; [reflexivity|].
  intros A. cbn [Utils.lstrip]. destruct (p c); [|exact A].
  simpl in A. apply andb_true_iff in A as [_ A]. auto.
Qed.

(** The pattern [_+] matches where an underscore stands and takes the
    whole run of underscores. *)
Lemma greedy_plus_run_of (cls : ascii -> bool) (c : ascii) (s : string) :
  greedy_plus cls (fun _ _ => true) (String c s)
  = if cls c
    then match greedy_plus cls (fun _ _ => true) (String c s) with
         | Some (m, _) => Some (m, Utils.lstrip cls s)
         | None => None
         end
    else None.
Proof.
  revert c. induction s as [|d s IH]; intros c.
  - simpl. destruct (cls c); reflexivity.
  - cbn [greedy_plus] in *. destruct (cls c); [|reflexivity].
    specialize (IH d). cbn [Utils.lstrip].
    destruct (cls d) eqn:Hd; [|reflexivity].
    destruct (greedy_plus cls (fun _ _ => true) s) as [[m r]|].
    + injection IH as IH. now rewrite <- IH.
    + injection IH as IH. now rewrite <- IH.
Qed.

Lemma greedy_plus_some (cls : ascii -> bool) (c : ascii) (s : string) :
  cls c = true ->
  exists m, greedy_plus cls (fun _ _ => true) (String c s) = Some (m, Utils.lstrip cls s).
Proof.
  intros Hc. rewrite greedy_plus_run_of, Hc.
  cbn [greedy_plus]. rewrite Hc.
  destruct (greedy_plus cls (fun _ _ => true) s) as [[m r]|]; eauto.
Qed.

Lemma squeeze_step (fuel : nat) (c : ascii) (s : string) :
  Utils.sub_from (S fuel)
    (greedy_plus Utils.is_underscore (fun _ _ => true)) "_" (String c s)
  = if Utils.is_underscore c
    then String "_"
           (Utils.sub_from fuel
              (greedy_plus Utils.is_underscore (fun _ _ => true)) "_"
              (Utils.lstrip Utils.is_underscore s))
    else String c
           (Utils.sub_from fuel
              (greedy_plus Utils.is_underscore (fun _ _ => true)) "_" s).
Proof.
  cbn [Utils.sub_from]. destruct (Utils.is_underscore c) eqn:Hc.
  - destruct (greedy_plus_some Utils.is_underscore c s Hc) as [m E].
    rewrite E. reflexivity.
  - cbn [greedy_plus]. rewrite Hc. reflexivity.
Qed.

Lemma squeeze_first_char (fuel : nat) (s : string) :
  Utils.is_underscore_at (first_char s) = false ->
  Utils.is_underscore_at
    (first_char
       (Utils.sub_from (S fuel)
          (greedy_plus Utils.is_underscore (fun _ _ => true)) "_" s))
  = false.
Proof.
  destruct s as [|c s]; intros H.
  - reflexivity.
  - rewrite squeeze_step. simpl in H. rewrite H. simpl. exact H.
Qed.

Lemma squeeze_no_double (fuel : nat) :
  forall s, String.length s < fuel ->
    Utils.no_double_underscore
      (Utils.sub_from fuel
         (greedy_plus Utils.is_underscore (fun _ _ => true)) "_" s) = true.
Proof.
  induction fuel as [|fuel IH]; intros s H; [lia|].
  destruct s as [|c s]; [reflexivity|].
  rewrite squeeze_step. simpl in H.
  destruct (Utils.is_underscore c) eqn:Hc.
  - cbn [Utils.no_double_underscore]. rewrite IH
      by (pose proof (length_lstrip Utils.is_underscore s); lia).
    destruct fuel as [|fuel]; [lia|].
    rewrite squeeze_first_char by apply lstrip_first_char.
    now rewrite andb_false_r.
  - cbn [Utils.no_double_underscore]. rewrite Hc, IH by lia. reflexivity.
Qed.

Lemma squeeze_all_chars (p : ascii -> bool) (fuel : nat) :
  forall s, String.length s < fuel ->
    all_chars p s = true ->
    all_chars p
      (Utils.sub_from fuel
         (greedy_plus Utils.is_underscore (fun _ _ => true)) "_" s) = true.
Proof.
  induction fuel as [|fuel IH]; intros s H A; [lia|].
  destruct s as [|c s]; [reflexivity|].
  rewrite squeeze_step. simpl in H, A.
  apply andb_true_iff in A as [Pc A].
  destruct (Utils.is_underscore c) eqn:Hc.
  - apply is_underscore_eq in Hc. subst c. cbn [all_chars]. rewrite Pc.
    apply IH; [pose proof (length_lstrip Utils.is_underscore s); lia|].
    now apply all_chars_lstrip.
  - cbn [all_chars]. rewrite Pc. apply IH; [lia | exact A].
Qed.

Lemma squeeze_unchanged (fuel : nat) :
  forall s, String.length s < fuel ->
    Utils.no_double_underscore s = true ->
    Utils.sub_from fuel
      (greedy_plus Utils.is_underscore (fun _ _ => true)) "_" s = s.
Proof.
  induction fuel as [|fuel IH]; intros s H A; [lia|].
  destruct s as [|c s]; [reflexivity|].
  rewrite squeeze_step. simpl in H. cbn [Utils.no_double_underscore] in A.
  apply andb_true_iff in A as [Hcc A].
  destruct (Utils.is_underscore c) eqn:Hc.
  - simpl in Hcc. apply negb_true_iff in Hcc.
    rewrite lstrip_unchanged by exact Hcc.
    apply is_underscore_eq in Hc. subst c. f_equal. apply IH; [lia | exact A].
  - f_equal. apply IH; [lia | exact A].
Qed.

Lemma squeeze_length (fuel : nat) :
  forall s,
    String.length
      (Utils.sub_from fuel
         (greedy_plus Utils.is_underscore (fun _ _ => true)) "_" s)
    <= String.length s.
Proof.
  induction fuel as [|fuel IH]; intros s; [simpl; lia|].
  destruct s as [|c s].
  - cbn [Utils.sub_from greedy_plus]. simpl. lia.
  - rewrite squeeze_step. destruct (Utils.is_underscore c); simpl.
    + pose proof (IH (Utils.lstrip Utils.is_underscore s)).
      pose proof (length_lstrip Utils.is_underscore s). lia.
    + specialize (IH s). lia.
Qed.

Lemma all_chars_take (p : ascii -> bool) (n : nat) (s : string) :
  all_chars p s = true -> all_chars p (Utils.take n s) = true.
Proof.
  revert s. induction n as [|n IH]; intros [|c s]; simpl; auto.
  intros A. apply andb_true_iff in A as [Pc A]. now rewrite Pc, IH.
Qed.

Lemma first_char_take (n : nat) (s : string) :
  Utils.is_underscore_at (first_char s) = false ->
  Utils.is_underscore_at (first_char (Utils.take n s)) = false.
Proof. destruct n, s; simpl; auto. Qed.

Lemma no_double_underscore_take (n : nat) (s : string) :
  Utils.no_double_underscore s = true ->
  Utils.no_double_underscore (Utils.take n s) = true.
Proof.
  revert s. induction n as [|n IH]; intros [|c s]; simpl; auto.
  intros A. apply andb_true_iff in A as [Hcc A]. rewrite (IH s A), andb_true_r.
  destruct (Utils.is_underscore c); [|reflexivity]. simpl in *.
  apply negb_true_iff in Hcc. now rewrite first_char_take.
Qed.

Lemma slice_to_take (n : Z) (s : string) :
  exists k, Utils.slice_to n s = Utils.take k s.
Proof. unfold Utils.slice_to. destruct (Z.leb 0 n); eauto. Qed.

Lemma rstrip_step (p : ascii -> bool) (c : ascii) (s : string) :
  Utils.rstrip p (String c s)
  = if String.eqb (Utils.rstrip p s) ""
    then (if p c then "" else String c "")
    else String c (Utils.rstrip p s).
Proof. simpl. destruct (Utils.rstrip p s); reflexivity. Qed.

Lemma rstrip_first_char (p : ascii -> bool) (s : string) :
  Utils.rstrip p s <> "" -> first_char (Utils.rstrip p s) = first_char s.
Proof.
  destruct s as [|c s]; [reflexivity|]. rewrite rstrip_step.
  destruct (String.eqb (Utils.rstrip p s) ""); [|reflexivity].
  destruct (p c); [contradiction | reflexivity].
Qed.

Lemma all_chars_rstrip (p q : ascii -> bool) (s : string) :
  all_chars q s = true -> all_chars q (Utils.rstrip p s) = true.
Proof.
  induction s as [|c s IH]; [reflexivity|].
  intros A. simpl in A. apply andb_true_iff in A as [Qc A].
  rewrite rstrip_step.
  destruct (String.eqb (Utils.rstrip p s) "").
  - destruct (p c); simpl; [reflexivity | now rewrite Qc].
  - simpl. now rewrite Qc, IH.
Qed.

Lemma no_double_underscore_rstrip (p : ascii -> bool) (s : string) :
  Utils.no_double_underscore s = true ->
  Utils.no_double_underscore (Utils.rstrip p s) = true.
Proof.
  induction s as [|c s IH]; [reflexivity|].
  intros A. cbn [Utils.no_double_underscore] in A.
  apply andb_true_iff in A as [Hcc A]. rewrite rstrip_step.
  destruct (String.eqb_spec (Utils.rstrip p s) "") as [E|E].
  - destruct (p c); simpl; [reflexivity | now rewrite andb_false_r].
  - cbn [Utils.no_double_underscore].
    now rewrite (rstrip_first_char p s E), Hcc, IH.
Qed.

Lemma length_rstrip (p : ascii -> bool) (s : string) :
  String.length (Utils.rstrip p s) <= String.length s.
Proof.
  induction s as [|c s IH]; [simpl; lia|]. rewrite rstrip_step.
  destruct (String.eqb (Utils.rstrip p s) ""); [destruct (p c)|];
    simpl; lia.
Qed.

Lemma rstrip_last_char (s : string) :
  Utils.is_underscore_at
    (last_char None (Utils.rstrip Utils.is_underscore s)) = false.
Proof.
  induction s as [|c s IH]; [reflexivity|]. rewrite rstrip_step.
  destruct (String.eqb_spec (Utils.rstrip Utils.is_underscore s) "") as [E|E].
  - destruct (Utils.is_underscore c) eqn:Hc; simpl; [reflexivity | exact Hc].
  - cbn [last_char].
    now rewrite (last_char_nonempty (Some c) None _ E).
Qed.

Lemma rstrip_unchanged (s : string) :
  Utils.is_underscore_at (last_char None s) = false ->
  Utils.rstrip Utils.is_underscore s = s.
Proof.
  induction s as [|c s IH]; [reflexivity|]. intros H. rewrite rstrip_step.
  destruct s as [|d s].
  - simpl in *. now rewrite H.
  - rewrite (IH H). reflexivity.
Qed.

Lemma lstrip_last_char (s : string) :
  Utils.is_underscore_at (last_char None s) = false ->
  Utils.is_underscore_at
    (last_char None (Utils.lstrip Utils.is_underscore s)) = false.
Proof.
  induction s as [|c s IH]; [reflexivity|]. intros H. cbn [Utils.lstrip].
  destruct (Utils.is_underscore c) eqn:Hc; [|exact H].
  apply IH. destruct s as [|d s].
  - simpl in H. congruence.
  - exact H.
Qed.

Lemma sanitized_is_clean (text : string) (max_length : Z) :
  all_chars Utils.is_clean_char (Utils.sanitize_filename text max_length)
  = true
  /\ Utils.no_double_underscore (Utils.sanitize_filename text max_length)
     = true
  /\ Utils.is_underscore_at
       (first_char (Utils.sanitize_filename text max_length)) = false
  /\ Utils.is_underscore_at
       (last_char None (Utils.sanitize_filename text max_length)) = false.
Proof.
  unfold Utils.sanitize_filename, Utils.re_sub.
  set (s1 := Utils.sub_from _ (Utils.match_class _) "" text).
  set (s2 := Utils.replace_char " " "_" s1).
  set (s3 := Utils.sub_from _ _ "_" s2).
  assert (A1 : all_chars (fun c => negb (Utils.is_invalid_char c)) s1 = true)
    by (apply sub_class_removes; lia).
  assert (A2 : all_chars Utils.is_clean_char s2 = true)
    by now apply replace_blank_clean.
  assert (A3 : all_chars Utils.is_clean_char s3 = true)
    by (apply squeeze_all_chars; [lia | exact A2]).
  assert (D3 : Utils.no_double_underscore s3 = true)
    by (apply squeeze_no_double; lia).
  destruct (slice_to_take max_length s3) as [k ->].
  unfold Utils.strip. repeat split.
  - now apply all_chars_lstrip, all_chars_rstrip, all_chars_take.
  - now apply no_double_underscore_lstrip, no_double_underscore_rstrip,
      no_double_underscore_take.
  - apply lstrip_first_char.
  - apply lstrip_last_char, rstrip_last_char.
Qed.

(** X3: a sanitized name holds none of the removed characters and no
    blank, has no two underscores side by side, and neither starts nor
    ends with an underscore. *)
Theorem sanitize_filename_clean (text : string) (max_length : Z) :
  all_chars Utils.is_clean_char (Utils.sanitize_filename text max_length)
  = true
  /\ Utils.no_double_underscore (Utils.sanitize_filename text max_length)
     = true
  /\ Utils.is_underscore_at
       (first_char (Utils.sanitize_filename text max_length)) = false
  /\ Utils.is_underscore_at
       (last_char None (Utils.sanitize_filename text max_length)) = false.
Proof. exact (sanitized_is_clean text max_length). Qed.

Lemma sanitized_length (text : string) (max_length : Z) :
  String.length (Utils.sanitize_filename text max_length)
  <= String.length text
  /\ ((0 <= max_length)%Z ->
      (Z.of_nat (String.length (Utils.sanitize_filename text max_length))
       <= max_length)%Z).
Proof.
  unfold Utils.sanitize_filename, Utils.re_sub, Utils.strip.
  set (s1 := Utils.sub_from _ (Utils.match_class _) "" text).
  set (s2 := Utils.replace_char " " "_" s1).
  set (s3 := Utils.sub_from _ _ "_" s2).
  assert (L1 : String.length s1 <= String.length text)
    by apply sub_class_length.
  assert (L2 : String.length s2 = String.length s1)
    by apply length_replace_char.
  assert (L3 : String.length s3 <= String.length s2)
    by apply squeeze_length.
  pose proof (length_lstrip Utils.is_underscore
                (Utils.rstrip Utils.is_underscore
                   (Utils.slice_to max_length s3))) as L5.
  pose proof (length_rstrip Utils.is_underscore
                (Utils.slice_to max_length s3)) as L4.
  split.
  - destruct (slice_to_take max_length s3) as [k E]. rewrite E in *.
    rewrite length_take in L4. lia.
  - intros Hm. rewrite slice_to_nonneg in * by assumption.
    rewrite length_take in L4. lia.
Qed.

(** X4: a sanitized name is never longer than the text it comes from, and
    with a non-negative [max_length] it has at most [max_length]
    characters. *)
Theorem sanitize_filename_length (text : string) (max_length : Z) :
  String.length (Utils.sanitize_filename text max_length)
  <= String.length text
  /\ ((0 <= max_length)%Z ->
      (Z.of_nat (String.length (Utils.sanitize_filename text max_length))
       <= max_length)%Z).
Proof. exact (sanitized_length text max_length). Qed.

Lemma sanitize_filename_length_witness :
  (Z.of_nat (String.length (Utils.sanitize_filename "abc def ghi" 5)) <= 5)%Z.
Proof.
  apply (proj2 (sanitize_filename_length "abc def ghi" 5)). lia.
Defined.

Lemma clean_name_unchanged (text : string) (max_length : Z) :
  all_chars Utils.is_clean_char text = true ->
  Utils.no_double_underscore text = true ->
  Utils.is_underscore_at (first_char text) = false ->
  Utils.is_underscore_at (last_char None text) = false ->
  (Z.of_nat (String.length text) <= max_length)%Z ->
  Utils.sanitize_filename text max_length = text.
Proof.
  intros A D F L Hm.
  unfold Utils.sanitize_filename, Utils.re_sub, Utils.strip.
  rewrite sub_class_unchanged; [|lia|].
  - rewrite replace_blank_unchanged by exact A.
    rewrite squeeze_unchanged by (lia || exact D).
    rewrite slice_to_nonneg by lia. rewrite take_all by lia.
    rewrite rstrip_unchanged by exact L.
    now apply lstrip_unchanged.
  - apply (all_chars_impl Utils.is_clean_char); [|exact A].
    intros c Hc. unfold Utils.is_clean_char in Hc.
    now apply andb_true_iff in Hc as [Hc _].
Qed.

(** X5: a name that is already clean (no removed character, no blank, no
    doubled underscore, no underscore at either end) and has at most
    [max_length] characters passes through unchanged. *)
Theorem sanitize_filename_unchanged (text : string) (max_length : Z) :
  all_chars Utils.is_clean_char text = true ->
  Utils.no_double_underscore text = true ->
  Utils.is_underscore_at (first_char text) = false ->
  Utils.is_underscore_at (last_char None text) = false ->
  (Z.of_nat (String.length text) <= max_length)%Z ->
  Utils.sanitize_filename text max_length = text.
Proof. exact (clean_name_unchanged text max_length). Qed.

Lemma sanitize_filename_unchanged_witness :
  Utils.sanitize_filename "El_fin-de.la_era" 100 = "El_fin-de.la_era".
Proof.
  apply sanitize_filename_unchanged; try reflexivity. vm_compute. discriminate.
Defined.

(** X6: with a non-negative [max_length], sanitizing a sanitized name
    again changes nothing. *)
Theorem sanitize_filename_idempotent (text : string) (max_length : Z) :
  (0 <= max_length)%Z ->
  Utils.sanitize_filename (Utils.sanitize_filename text max_length)
    max_length
  = Utils.sanitize_filename text max_length.
Proof.
  intros Hm.
  destruct (sanitized_is_clean text max_length) as [A [D [F L]]].
  apply clean_name_unchanged; try assumption.
  now apply sanitized_length.
Qed.

Lemma sanitize_filename_idempotent_witness :
  Utils.sanitize_filename (Utils.sanitize_filename "a / b?" 100) 100
  = Utils.sanitize_filename "a / b?" 100.
Proof. apply sanitize_filename_idempotent. lia. Defined.

(** ** [translate_text] and [get_translated_headers] *)

Lemma attempt_loop_first_answer {St : Type} (self : ArticleTranslator.t St)
    (text : string) (k : nat) :
  forall a st,
    ArticleTranslator.attempt_loop self text (a + k) (seq a k) st
    = (fst (ArticleTranslator.first_answer self text k st),
       match snd (ArticleTranslator.first_answer self text k st) with
       | Some translated => translated
       | None => text
       end).
Proof.
  induction k as [|k IH]; intros a st; [reflexivity|].
  cbn [seq ArticleTranslator.attempt_loop ArticleTranslator.first_answer].
  destruct (ArticleTranslator.translator self st text
              (ArticleTranslator.source_lang self)
              (ArticleTranslator.target_lang self)) as [st' [tr|]];
    [reflexivity|].
  destruct (Nat.ltb_spec a (a + S k - 1)) as [L|L].
  - replace (a + S k) with (S a + k) by lia. apply IH.
  - assert (k = 0) by lia. subst k. reflexivity.
Qed.

(** X7: [translate_text] makes no call for the empty text and returns it;
    for any other text it calls the service until the first answer, at most
    [retry_count] times, and returns that answer, or the text itself when no
    call answered. *)
Theorem translate_text_first_answer {St : Type}
    (self : ArticleTranslator.t St) (text : string) (retry_count : nat)
    (st : St) :
  ArticleTranslator.translate_text self "" retry_count st = (st, "")
  /\ (text <> "" ->
      ArticleTranslator.translate_text self text retry_count st
      = (fst (ArticleTranslator.first_answer self text retry_count st),
         match snd (ArticleTranslator.first_answer self text retry_count st)
         with
         | Some translated => translated
         | None => text
         end)).
Proof.
  split; [reflexivity|]. intros Hne.
  unfold ArticleTranslator.translate_text.
  apply String.eqb_neq in Hne. rewrite Hne.
  apply (attempt_loop_first_answer self text retry_count 0 st).
Qed.

Lemma translate_text_first_answer_witness :
  ArticleTranslator.translate_text (ArticleTranslator.flaky 2) "hola" 3 0
  = (3, "[hola]").
Proof.
  apply (proj2 (translate_text_first_answer (ArticleTranslator.flaky 2)
                  "hola" 3 0)).
  discriminate.
Defined.

Lemma get_translated_headers_acc {St : Type} (self : ArticleTranslator.t St)
    (articles : list ArticleTranslator.article) :
  forall (st : St) (acc : list ArticleTranslator.translation)
         (acc' : list string),
    map ArticleTranslator.translated acc = acc' ->
    fst (fold_left (ArticleTranslator.header_step self) articles (st, acc))
    = fst (fold_left (ArticleTranslator.title_step self)
             (map (ArticleTranslator.get_field "title" "") articles)
             (st, acc'))
    /\ map ArticleTranslator.translated
         (snd (fold_left (ArticleTranslator.header_step self) articles
                 (st, acc)))
       = snd (fold_left (ArticleTranslator.title_step self)
                (map (ArticleTranslator.get_field "title" "") articles)
                (st, acc'))
    /\ map ArticleTranslator.original
         (snd (fold_left (ArticleTranslator.header_step self) articles
                 (st, acc)))
       = map ArticleTranslator.original acc
         ++ map (ArticleTranslator.get_field "title" "") articles.
Proof.
  induction articles as [|art articles IH]; intros st acc acc' E.
  - simpl. rewrite app_nil_r. auto.
  - cbn [fold_left map].
    unfold ArticleTranslator.header_step at 2 4 6.
    unfold ArticleTranslator.title_step at 2 4. cbn [fst snd].
    destruct (ArticleTranslator.translate_text self
                (ArticleTranslator.get_field "title" "" art)
                ArticleTranslator.default_retry_count st) as [st' tr].
    specialize (IH st'
      (acc ++ [{| ArticleTranslator.original :=
                    ArticleTranslator.get_field "title" "" art;
                  ArticleTranslator.translated := tr |}])
      (acc' ++ [tr])).
    destruct IH as [H1 [H2 H3]].
    { rewrite map_app. simpl. now rewrite E. }
    split; [exact H1|]. split; [exact H2|].
    rewrite H3, map_app. simpl. now rewrite <- app_assoc.
Qed.

(** X8: [get_translated_headers] keeps the title of every article (the
    empty text for an article without title) as [original], in order, and
    its [translated] texts are the list that [translate_titles] gives for
    those titles; both leave the service in the same state. *)
Theorem get_translated_headers_translate_titles {St : Type}
    (self : ArticleTranslator.t St)
    (articles : list ArticleTranslator.article) (st : St) :
  map ArticleTranslator.original
    (snd (ArticleTranslator.get_translated_headers self articles st))
  = map (ArticleTranslator.get_field "title" "") articles
  /\ map ArticleTranslator.translated
       (snd (ArticleTranslator.get_translated_headers self articles st))
     = snd (ArticleTranslator.translate_titles self
              (map (ArticleTranslator.get_field "title" "") articles) st)
  /\ fst (ArticleTranslator.get_translated_headers self articles st)
     = fst (ArticleTranslator.translate_titles self
              (map (ArticleTranslator.get_field "title" "") articles) st).
Proof.
  unfold ArticleTranslator.get_translated_headers,
    ArticleTranslator.translate_titles.
  destruct (get_translated_headers_acc self articles st [] [] eq_refl)
    as [H1 [H2 H3]].
  auto.
Qed.

(** ** More on the analysis *)

Lemma In_analyze_headers (self : WordAnalyzer.t) (headers : list string)
    (w : string) (c : Z) :
  In (w, c) (WordAnalyzer.analyze_headers self headers) <->
  In w (WordAnalyzer.all_words headers)
  /\ c = Z.of_nat (count_occ string_dec (WordAnalyzer.all_words headers) w)
  /\ (WordAnalyzer.min_occurrences self <= c)%Z.
Proof.
  rewrite analyze_headers_unfold, In_sorted_desc, filter_In.
  unfold WordAnalyzer.count_words. rewrite In_Counter. simpl.
  rewrite Z.geb_le. tauto.
Qed.

Lemma NoDup_keys_analyze_headers (self : WordAnalyzer.t)
    (headers : list string) :
  NoDup (keys (WordAnalyzer.analyze_headers self headers)).
Proof.
  rewrite analyze_headers_unfold.
  apply NoDup_keys_sorted_desc, NoDup_keys_filter, NoDup_keys_count_words.
Qed.

(** X9: the result of [analyze_headers] lists exactly the words whose
    number of occurrences in the headers is at least [min_occurrences],
    each word once, with that number. *)
Theorem analyze_headers_entries (self : WordAnalyzer.t)
    (headers : list string) :
  NoDup (keys (WordAnalyzer.analyze_headers self headers))
  /\ forall w c,
       In (w, c) (WordAnalyzer.analyze_headers self headers) <->
       In w (WordAnalyzer.all_words headers)
       /\ c = Z.of_nat
                (count_occ string_dec (WordAnalyzer.all_words headers) w)
       /\ (WordAnalyzer.min_occurrences self <= c)%Z.
Proof.
  split; [apply NoDup_keys_analyze_headers|].
  intros w c. apply In_analyze_headers.
Qed.

Lemma count_occ_Permutation (l l' : list string) (w : string) :
  Permutation l l' ->
  count_occ string_dec l w = count_occ string_dec l' w.
Proof.
  induction 1 as [|x l l' _ IH|x y l|l l' l'' _ IH1 _ IH2]; simpl.
  - reflexivity.
  - now rewrite IH.
  - destruct (string_dec x w), (string_dec y w); reflexivity.
  - congruence.
Qed.

Lemma all_words_Permutation (headers headers' : list string) :
  Permutation headers headers' ->
  Permutation (WordAnalyzer.all_words headers)
    (WordAnalyzer.all_words headers').
Proof.
  intros P. rewrite !all_words_flat_map.
  induction P as [|x l l' _ IH|x y l|l l' l'' _ IH1 _ IH2]; simpl.
  - constructor.
  - now apply Permutation_app_head.
  - rewrite !app_assoc. apply Permutation_app_tail, Permutation_app_comm.
  - now transitivity (flat_map WordAnalyzer.header_words l').
Qed.

(** X10: the order of the headers does not matter for the counts: two
    lists with the same headers in another order give every word the same
    count, and [analyze_headers] the same entries (only the order of words
    with equal counts can differ). *)
Theorem count_words_order_of_headers (self : WordAnalyzer.t)
    (headers headers' : list string) :
  Permutation headers headers' ->
  (forall w,
     counter_get w (WordAnalyzer.count_words headers)
     = counter_get w (WordAnalyzer.count_words headers'))
  /\ (forall w c,
        In (w, c) (WordAnalyzer.analyze_headers self headers) <->
        In (w, c) (WordAnalyzer.analyze_headers self headers')).
Proof.
  intros P. apply all_words_Permutation in P. split.
  - intros w. unfold WordAnalyzer.count_words.
    rewrite !counter_get_Counter. f_equal. now apply count_occ_Permutation.
  - intros w c. rewrite !In_analyze_headers.
    rewrite (count_occ_Permutation _ _ w P).
    split; intros [I H]; (split; [|exact H]).
    + now apply (Permutation_in w P).
    + now apply (Permutation_in w (Permutation_sym P)).
Qed.

Lemma count_words_order_of_headers_witness :
  counter_get "dog" (WordAnalyzer.count_words ["dog cat"; "A dog"])
  = counter_get "dog" (WordAnalyzer.count_words ["A dog"; "dog cat"]).
Proof.
  apply (proj1 (count_words_order_of_headers (WordAnalyzer.init None)
                  ["dog cat"; "A dog"] ["A dog"; "dog cat"]
                  (perm_swap "A dog" "dog cat" []))).
Defined.

Lemma total_count_dict_set (w : string) (v : Z) (d : table) :
  total_count (dict_set w v d)
  = (total_count d - counter_get w d + v)%Z.
Proof.
  unfold counter_get. induction d as [|[k x] d IH]; simpl; [lia|].
  destruct (String.eqb_spec k w) as [->|Hne]; simpl; [lia|].
  rewrite IH. lia.
Qed.

Lemma total_count_fold (ws : list string) (d : table) :
  total_count (fold_left counter_add ws d)
  = (total_count d + Z.of_nat (List.length ws))%Z.
Proof.
  revert d. induction ws as [|w ws IH]; intros d; simpl; [lia|].
  rewrite IH. unfold counter_add at 1. rewrite total_count_dict_set.
  unfold counter_get. lia.
Qed.

(** X11: the counts of the table add up to the number of words found in
    the headers. *)
Theorem count_words_total (headers : list string) :
  total_count (WordAnalyzer.count_words headers)
  = Z.of_nat (List.length (WordAnalyzer.all_words headers)).
Proof.
  unfold WordAnalyzer.count_words, Counter. now rewrite total_count_fold.
Qed.

(** ** Stripping *)

Section Strip.

Variable p : ascii -> bool.

Lemma lstrip_first (s : string) :
  Utils.char_is p (first_char (Utils.lstrip p s)) = false.
Proof.
  induction s as [|c s IH]; simpl; [reflexivity|].
  destruct (p c) eqn:Hc; [exact IH | simpl; exact Hc].
Qed.

Lemma lstrip_same (s : string) :
  Utils.char_is p (first_char s) = false -> Utils.lstrip p s = s.
Proof. destruct s as [|c s]; simpl; [reflexivity | now intros ->]. Qed.

Lemma rstrip_last (s : string) :
  Utils.char_is p (last_char None (Utils.rstrip p s)) = false.
Proof.
  induction s as [|c s IH]; [reflexivity|]. rewrite rstrip_step.
  destruct (String.eqb_spec (Utils.rstrip p s) "") as [E|E].
  - destruct (p c) eqn:Hc; simpl; [reflexivity | exact Hc].
  - cbn [last_char]. now rewrite (last_char_nonempty (Some c) None _ E).
Qed.

Lemma rstrip_same (s : string) :
  Utils.char_is p (last_char None s) = false -> Utils.rstrip p s = s.
Proof.
  induction s as [|c s IH]; [reflexivity|]. intros H. rewrite rstrip_step.
  destruct s as [|d s].
  - simpl in *. now rewrite H.
  - rewrite (IH H). reflexivity.
Qed.

Lemma lstrip_last (s : string) :
  Utils.char_is p (last_char None s) = false ->
  Utils.char_is p (last_char None (Utils.lstrip p s)) = false.
Proof.
  induction s as [|c s IH]; [reflexivity|]. intros H. cbn [Utils.lstrip].
  destruct (p c) eqn:Hc; [|exact H].
  apply IH. destruct s as [|d s]; [simpl in H; congruence | exact H].
Qed.

(** A stripped string has no character of the class at either end, and
    stripping it again gives it back. *)
Lemma strip_ends (s : string) :
  Utils.char_is p (first_char (Utils.strip p s)) = false
  /\ Utils.char_is p (last_char None (Utils.strip p s)) = false
  /\ Utils.strip p (Utils.strip p s) = Utils.strip p s.
Proof.
  assert (F : Utils.char_is p (first_char (Utils.strip p s)) = false)
    by apply lstrip_first.
  assert (L : Utils.char_is p (last_char None (Utils.strip p s)) = false)
    by apply lstrip_last, rstrip_last.
  split; [exact F|]. split; [exact L|].
  unfold Utils.strip at 1. rewrite (rstrip_same _ L). now apply lstrip_same.
Qed.

End Strip.

(** ** The links of the opinion page *)

Lemma first_seen_distinct (l : list string) :
  NoDup l -> first_seen l = l.
Proof.
  induction 1 as [|w l Hw ND IH]; simpl; [reflexivity|].
  rewrite IH. f_equal. apply filter_all. intros x Ix.
  apply negb_true_iff, String.eqb_neq. intros ->. contradiction.
Qed.

Lemma existsb_eqb_false (x : string) (l : list string) :
  existsb (String.eqb x) l = false -> ~ In x l.
Proof.
  intros E I. apply existsb_eqb_In in I. congruence.
Qed.

Lemma collect_links_invariant (count : Z)
    (elements : list (ElPaisScraper.reply (option string))) :
  forall links links' e,
    ElPaisScraper.collect_links count elements links = (links', e) ->
    NoDup links ->
    (Z.of_nat (List.length links) < Z.max count 1)%Z ->
    NoDup links'
    /\ (Z.of_nat (List.length links') <= Z.max count 1)%Z
    /\ (e <> ElPaisScraper.Broke ->
        (Z.of_nat (List.length links') < Z.max count 1)%Z)
    /\ forall h, In h links' ->
         In h links
         \/ (h <> "" /\ ElPaisScraper.contains ElPaisScraper.opinion_marker h
                        = true
             /\ In (ElPaisScraper.Reply (Some h)) elements).
Proof.
  induction elements as [|el elements IH]; intros links links' e E ND L.
  - injection E as <- <-. repeat split; auto; lia.
  - cbn [ElPaisScraper.collect_links] in E.
    destruct el as [[href|]|].
    + destruct (negb (String.eqb href "")
                && negb (existsb (String.eqb href) links)
                && ElPaisScraper.contains ElPaisScraper.opinion_marker href)%bool
        eqn:Q.
      * apply andb_true_iff in Q as [Q Hm].
        apply andb_true_iff in Q as [Hne Hnew].
        apply negb_true_iff, String.eqb_neq in Hne.
        apply negb_true_iff, existsb_eqb_false in Hnew.
        assert (ND' : NoDup (links ++ [href])).
        { apply NoDup_app; [assumption | repeat constructor; simpl; tauto |].
          intros x Ix [<-|[]]. contradiction. }
        assert (Hin : forall h, In h (links ++ [href]) ->
                        In h links
                        \/ (h <> "" /\ ElPaisScraper.contains
                                         ElPaisScraper.opinion_marker h = true
                            /\ In (ElPaisScraper.Reply (Some h))
                                 (ElPaisScraper.Reply (Some href) :: elements))).
        { intros h Ih. apply in_app_or in Ih as [Ih|[<-|[]]]; [now left|].
          right. repeat split; auto. now left. }
        destruct (Z.geb_spec (Z.of_nat (List.length (links ++ [href]))) count)
          as [G|G].
        -- injection E as <- <-. rewrite length_app in *. simpl in *.
           repeat split; auto; try lia. congruence.
        -- apply IH in E as [N' [L' [B' I']]]; auto;
             [|rewrite length_app in *; simpl in *; lia].
           repeat split; auto. intros h Ih.
           destruct (I' h Ih) as [I1|[H1 [H2 H3]]]; [now apply Hin|].
           right. repeat split; auto. now right.
      * apply IH in E as [N' [L' [B' I']]]; auto.
        repeat split; auto. intros h Ih.
        destruct (I' h Ih) as [I1|[H1 [H2 H3]]]; [now left|].
        right. repeat split; auto. now right.
    + apply IH in E as [N' [L' [B' I']]]; auto.
      repeat split; auto. intros h Ih.
      destruct (I' h Ih) as [I1|[H1 [H2 H3]]]; [now left|].
      right. repeat split; auto. now right.
    + injection E as <- <-. repeat split; auto; lia.
Qed.

Lemma try_selectors_invariant (pg : ElPaisScraper.page) (count : Z)
    (selectors : list string) :
  forall links,
    NoDup links ->
    (Z.of_nat (List.length links) < Z.max count 1)%Z ->
    NoDup (ElPaisScraper.try_selectors pg count selectors links)
    /\ (Z.of_nat (List.length
                    (ElPaisScraper.try_selectors pg count selectors links))
        <= Z.max count 1)%Z
    /\ forall h,
         In h (ElPaisScraper.try_selectors pg count selectors links) ->
         In h links
         \/ (h <> ""
             /\ ElPaisScraper.contains ElPaisScraper.opinion_marker h = true
             /\ exists selector elements,
                  In selector selectors
                  /\ ElPaisScraper.hrefs pg selector
                     = ElPaisScraper.Reply elements
                  /\ In (ElPaisScraper.Reply (Some h)) elements).
Proof.
  induction selectors as [|selector selectors IH]; intros links ND L.
  - simpl. repeat split; auto. lia.
  - cbn [ElPaisScraper.try_selectors].
    assert (Later : forall links0,
              NoDup links0 ->
              (Z.of_nat (List.length links0) < Z.max count 1)%Z ->
              (forall h, In h links0 ->
                 In h links
                 \/ (h <> ""
                     /\ ElPaisScraper.contains ElPaisScraper.opinion_marker h
                        = true
                     /\ exists sel elements,
                          In sel (selector :: selectors)
                          /\ ElPaisScraper.hrefs pg sel
                             = ElPaisScraper.Reply elements
                          /\ In (ElPaisScraper.Reply (Some h)) elements)) ->
              NoDup (ElPaisScraper.try_selectors pg count selectors links0)
              /\ (Z.of_nat
                    (List.length
                       (ElPaisScraper.try_selectors pg count selectors links0))
                  <= Z.max count 1)%Z
              /\ forall h,
                   In h (ElPaisScraper.try_selectors pg count selectors links0)
                   ->
                   In h links
                   \/ (h <> ""
                       /\ ElPaisScraper.contains
                            ElPaisScraper.opinion_marker h = true
                       /\ exists sel elements,
                            In sel (selector :: selectors)
                            /\ ElPaisScraper.hrefs pg sel
                               = ElPaisScraper.Reply elements
                            /\ In (ElPaisScraper.Reply (Some h)) elements)).
    { intros links0 ND0 L0 H0.
      destruct (IH links0 ND0 L0) as [N1 [L1 I1]].
      repeat split; auto. intros h Ih.
      destruct (I1 h Ih) as [I|[H1 [H2 [sel [els [S1 [S2 S3]]]]]]];
        [now apply H0|].
      right. repeat split; auto. exists sel, els. repeat split; auto.
      now right. }
    destruct (ElPaisScraper.hrefs pg selector) as [elements|] eqn:Hsel.
    + destruct (ElPaisScraper.collect_links count elements links)
        as [links' e] eqn:C.
      destruct (collect_links_invariant count elements links links' e C ND L)
        as [N' [L' [B' I']]].
      assert (H' : forall h, In h links' ->
                In h links
                \/ (h <> ""
                    /\ ElPaisScraper.contains ElPaisScraper.opinion_marker h
                       = true
                    /\ exists sel els,
                         In sel (selector :: selectors)
                         /\ ElPaisScraper.hrefs pg sel
                            = ElPaisScraper.Reply els
                         /\ In (ElPaisScraper.Reply (Some h)) els)).
      { intros h Ih. destruct (I' h Ih) as [I|[H1 [H2 H3]]]; [now left|].
        right. repeat split; auto. exists selector, elements.
        repeat split; auto. now left. }
      assert (Stop : e <> ElPaisScraper.Threw ->
                NoDup (if Z.geb (Z.of_nat (List.length links')) count
                       then links'
                       else ElPaisScraper.try_selectors pg count selectors
                              links')
                /\ (Z.of_nat
                      (List.length
                         (if Z.geb (Z.of_nat (List.length links')) count
                          then links'
                          else ElPaisScraper.try_selectors pg count selectors
                                 links'))
                    <= Z.max count 1)%Z
                /\ forall h,
                     In h (if Z.geb (Z.of_nat (List.length links')) count
                           then links'
                           else ElPaisScraper.try_selectors pg count selectors
                                  links') ->
                     In h links
                     \/ (h <> ""
                         /\ ElPaisScraper.contains
                              ElPaisScraper.opinion_marker h = true
                         /\ exists sel els,
                              In sel (selector :: selectors)
                              /\ ElPaisScraper.hrefs pg sel
                                 = ElPaisScraper.Reply els
                              /\ In (ElPaisScraper.Reply (Some h)) els)).
      { intros _.
        destruct (Z.geb_spec (Z.of_nat (List.length links')) count) as [G|G].
        - repeat split; auto.
        - apply Later; auto. lia. }
      destruct e.
      * apply Stop. discriminate.
      * apply Stop. discriminate.
      * apply Later; auto. apply B'. discriminate.
    + apply Later; auto.
Qed.

Lemma article_links_loop (pg : ElPaisScraper.page) (count : Z) :
  ((1 <= count)%Z ->
   ElPaisScraper.get_article_links pg count
   = ElPaisScraper.try_selectors pg count ElPaisScraper.link_selectors [])
  /\ ((count <= 0)%Z -> ElPaisScraper.get_article_links pg count = []).
Proof.
  unfold ElPaisScraper.get_article_links.
  destruct (try_selectors_invariant pg count ElPaisScraper.link_selectors []
              (NoDup_nil _)) as [ND [L _]]; [simpl; lia|].
  rewrite (first_seen_distinct _ ND).
  set (links := ElPaisScraper.try_selectors pg count
                  ElPaisScraper.link_selectors []) in *.
  unfold ElPaisScraper.list_slice_to. split; intros H.
  - destruct (Z.leb_spec 0 count); [|lia].
    apply firstn_all2. lia.
  - destruct (Z.leb_spec 0 count).
    + replace count with 0%Z by lia. reflexivity.
    + replace (Z.to_nat (Z.of_nat (List.length links) + count)) with 0
        by lia.
      reflexivity.
Qed.

Lemma article_links_invariant (pg : ElPaisScraper.page) (count : Z) :
  NoDup (ElPaisScraper.get_article_links pg count)
  /\ (Z.of_nat (List.length (ElPaisScraper.get_article_links pg count))
      <= Z.max 0 count)%Z
  /\ forall h,
       In h (ElPaisScraper.get_article_links pg count) ->
       h <> ""
       /\ ElPaisScraper.contains ElPaisScraper.opinion_marker h = true
       /\ exists selector elements,
            In selector ElPaisScraper.link_selectors
            /\ ElPaisScraper.hrefs pg selector = ElPaisScraper.Reply elements
            /\ In (ElPaisScraper.Reply (Some h)) elements.
Proof.
  destruct (article_links_loop pg count) as [Pos Neg].
  destruct (Z.le_gt_cases 1 count) as [H|H].
  - rewrite (Pos H).
    destruct (try_selectors_invariant pg count ElPaisScraper.link_selectors []
                (NoDup_nil _)) as [ND [L I]]; [simpl; lia|].
    repeat split; auto; try lia;
      destruct (I h H0) as [[]|[H1 [H2 H3]]]; auto.
  - rewrite Neg by lia. repeat split; try constructor; simpl; try lia;
      contradiction.
Qed.

(** X12: the links that [get_article_links] returns are distinct, and each
    is the non-empty [href] of an element found by one of the selectors and
    contains "/opinion/2026". *)
Theorem get_article_links_distinct (pg : ElPaisScraper.page) (count : Z) :
  NoDup (ElPaisScraper.get_article_links pg count)
  /\ forall h,
       In h (ElPaisScraper.get_article_links pg count) ->
       h <> ""
       /\ ElPaisScraper.contains ElPaisScraper.opinion_marker h = true
       /\ exists selector elements,
            In selector ElPaisScraper.link_selectors
            /\ ElPaisScraper.hrefs pg selector = ElPaisScraper.Reply elements
            /\ In (ElPaisScraper.Reply (Some h)) elements.
Proof.
  destruct (article_links_invariant pg count) as [ND [_ I]]. auto.
Qed.

(** X13: [get_article_links] returns at most [count] links, and none when
    [count] is zero or negative. *)
Theorem get_article_links_at_most_count (pg : ElPaisScraper.page)
    (count : Z) :
  (Z.of_nat (List.length (ElPaisScraper.get_article_links pg count))
   <= Z.max 0 count)%Z.
Proof. apply article_links_invariant. Qed.

(** X14: with a positive [count] the two loops already give distinct
    links, [count] of them at most, so the final removal of duplicates and
    the slice change nothing. *)
Theorem get_article_links_is_loop_result (pg : ElPaisScraper.page)
    (count : Z) :
  (1 <= count)%Z ->
  ElPaisScraper.get_article_links pg count
  = ElPaisScraper.try_selectors pg count ElPaisScraper.link_selectors [].
Proof. apply article_links_loop. Qed.

Example test_get_article_links :
  ElPaisScraper.get_article_links ElPaisScraper.sample_page 5
  = ["https://elpais.com/opinion/2026-01-02/a.html";
     "https://elpais.com/opinion/2026-01-03/b.html"]
  /\ ElPaisScraper.get_article_links ElPaisScraper.sample_page 1
     = ["https://elpais.com/opinion/2026-01-02/a.html"]
  /\ ElPaisScraper.get_article_links ElPaisScraper.sample_page 0 = [].
Proof. vm_compute. auto. Qed.

Example test_scrape_run :
  ElPaisScraper.scrape_run ElPaisScraper.sample_browser
  = ([{| ElPaisScraper.url := "https://elpais.com/opinion/2026-01-02/a.html";
         ElPaisScraper.title := "Un titulo: el fin?";
         ElPaisScraper.content := "uno dos tres";
         ElPaisScraper.image_url := Some "https://img.elpais.com/a.jpg" |}],
     [{| ElPaisScraper.image_address := "https://img.elpais.com/a.jpg";
         ElPaisScraper.file_name := "Un_titulo_el_fin.jpg" |}]).
Proof. vm_compute. reflexivity. Qed.

Lemma get_article_links_is_loop_result_witness :
  ElPaisScraper.get_article_links ElPaisScraper.sample_page 5
  = ElPaisScraper.try_selectors ElPaisScraper.sample_page 5
      ElPaisScraper.link_selectors [].
Proof. apply get_article_links_is_loop_result. lia. Defined.

(** ** The fields of an article *)

Lemma first_title_ok (pg : ElPaisScraper.page) (selectors : list string) :
  ElPaisScraper.first_title pg selectors <> ""
  /\ Utils.char_is ElPaisScraper.is_space
       (first_char (ElPaisScraper.first_title pg selectors)) = false
  /\ Utils.char_is ElPaisScraper.is_space
       (last_char None (ElPaisScraper.first_title pg selectors)) = false.
Proof.
  induction selectors as [|selector selectors IH]; simpl.
  - split; [discriminate | split; reflexivity].
  - destruct (ElPaisScraper.text_of pg selector) as [text|]; [|exact IH].
    destruct (String.eqb_spec (Utils.strip ElPaisScraper.is_space text) "")
      as [E|E]; [exact IH|].
    destruct (strip_ends ElPaisScraper.is_space text) as [F [L _]]. auto.
Qed.

Lemma join_blank_nonempty (x : string) (l : list string) :
  x <> "" -> ElPaisScraper.join_blank (x :: l) <> "".
Proof.
  destruct x as [|c x]; [contradiction|]. intros _.
  destruct l; simpl; discriminate.
Qed.

Lemma first_content_ok (pg : ElPaisScraper.page) (selectors : list string) :
  ElPaisScraper.stable_texts pg ->
  ElPaisScraper.first_content pg selectors <> "".
Proof.
  intros Stable.
  induction selectors as [|selector selectors IH]; simpl; [discriminate|].
  destruct (ElPaisScraper.texts_of pg selector) as [elements|] eqn:T;
    [|exact IH].
  destruct (filter
              (fun elem =>
                 negb (String.eqb
                         (Utils.strip ElPaisScraper.is_space (fst elem)) ""))
              elements) as [|e es] eqn:F; [exact IH|].
  assert (I : In e (filter
                      (fun elem =>
                         negb (String.eqb
                                 (Utils.strip ElPaisScraper.is_space
                                    (fst elem)) ""))
                      elements)) by (rewrite F; now left).
  apply filter_In in I as [Ie I].
  apply negb_true_iff, String.eqb_neq in I.
  rewrite (Stable selector elements e T Ie) in I.
  cbn [map firstn]. now apply join_blank_nonempty.
Qed.

(** The text of an element read a second time can be empty, and then so
    is the content. *)
Example test_extract_content_second_read :
  ElPaisScraper._extract_content ElPaisScraper.fading_page = "".
Proof. reflexivity. Qed.

Lemma first_image_ok (pg : ElPaisScraper.page) (selectors : list string)
    (src : string) :
  ElPaisScraper.first_image pg selectors = Some src ->
  src <> "" /\ ElPaisScraper.contains "http" src = true.
Proof.
  induction selectors as [|selector selectors IH]; simpl; [discriminate|].
  destruct (ElPaisScraper.src_of pg selector) as [[s|]|]; auto.
  destruct (negb (String.eqb s "") && ElPaisScraper.contains "http" s)%bool
    eqn:Q; auto.
  intros [= ->]. apply andb_true_iff in Q as [Q1 Q2].
  now apply negb_true_iff, String.eqb_neq in Q1.
Qed.

(** X15: whatever the page answers, [_extract_title] returns a non-empty
    text without white space at either end, and an image address returned
    by [_extract_image] is not empty and contains "http"; [_extract_content]
    returns a non-empty text on a page whose elements have the same text
    each time it is read. *)
Theorem extracted_fields_not_empty (pg : ElPaisScraper.page) :
  ElPaisScraper._extract_title pg <> ""
  /\ Utils.char_is ElPaisScraper.is_space
       (first_char (ElPaisScraper._extract_title pg)) = false
  /\ Utils.char_is ElPaisScraper.is_space
       (last_char None (ElPaisScraper._extract_title pg)) = false
  /\ (ElPaisScraper.stable_texts pg ->
      ElPaisScraper._extract_content pg <> "")
  /\ forall src,
       ElPaisScraper._extract_image pg = Some src ->
       src <> "" /\ ElPaisScraper.contains "http" src = true.
Proof.
  unfold ElPaisScraper._extract_title, ElPaisScraper._extract_content,
    ElPaisScraper._extract_image.
  destruct (first_title_ok pg ["h1"; "h1.a_t"; ".article_header h1";
                               "header h1"]) as [T1 [T2 T3]].
  split; [exact T1|]. split; [exact T2|]. split; [exact T3|].
  split; [apply first_content_ok|].
  intros src. apply first_image_ok.
Qed.

Lemma stable_sample_page : ElPaisScraper.stable_texts ElPaisScraper.sample_page.
Proof.
  intros selector elements elem T I. simpl in T.
  destruct (String.eqb selector ".a_c p"); [|discriminate].
  injection T as <-.
  repeat (destruct I as [<-|I]; [reflexivity|]). contradiction.
Qed.

Lemma extracted_fields_not_empty_witness :
  ElPaisScraper._extract_content ElPaisScraper.sample_page <> "".
Proof.
  apply (proj1 (proj2 (proj2 (proj2
           (extracted_fields_not_empty ElPaisScraper.sample_page))))).
  exact stable_sample_page.
Defined.

(** ** [scrape_all] *)

Lemma scrape_fold (b : ElPaisScraper.browser) (links : list string) :
  forall acc,
    fold_left (ElPaisScraper.scrape_step b) links acc
    = (fst acc
       ++ flat_map
            (fun link =>
               match ElPaisScraper.scrape_article (ElPaisScraper.visit b) link
               with
               | Some a => [a]
               | None => []
               end) links,
       snd acc
       ++ flat_map
            (fun link =>
               match ElPaisScraper.scrape_article (ElPaisScraper.visit b) link
               with
               | Some a =>
                   match ElPaisScraper.image_url a with
                   | Some src =>
                       if String.eqb src "" then []
                       else [{| ElPaisScraper.image_address := src;
                                ElPaisScraper.file_name :=
                                  (Utils.sanitize_filename
                                     (ElPaisScraper.title a)
                                     Utils.default_filename_length
                                   ++ ".jpg")%string |}]
                   | None => []
                   end
               | None => []
               end) links).
Proof.
  induction links as [|link links IH]; intros [arts dls].
  - simpl. now rewrite !app_nil_r.
  - cbn [fold_left flat_map]. rewrite IH.
    unfold ElPaisScraper.scrape_step.
    destruct (ElPaisScraper.scrape_article (ElPaisScraper.visit b) link)
      as [a|]; cbn [fst snd]; [|reflexivity].
    rewrite <- app_assoc. f_equal.
    destruct (ElPaisScraper.image_url a) as [src|]; [|reflexivity].
    destruct (String.eqb src ""); [reflexivity|].
    now rewrite <- app_assoc.
Qed.

Lemma scraped_urls (b : ElPaisScraper.browser) (links : list string) :
  map ElPaisScraper.url
    (flat_map
       (fun link =>
          match ElPaisScraper.scrape_article (ElPaisScraper.visit b) link with
          | Some a => [a]
          | None => []
          end) links)
  = filter (ElPaisScraper.loads b) links.
Proof.
  induction links as [|link links IH]; [reflexivity|].
  cbn [flat_map filter]. rewrite map_app, IH.
  unfold ElPaisScraper.scrape_article, ElPaisScraper.loads.
  destruct (ElPaisScraper.visit b link); reflexivity.
Qed.

(** What [scrape_run] gives when the section loads and has links. *)
Lemma scrape_run_cases (b : ElPaisScraper.browser) :
  ElPaisScraper.scrape_run b = ([], [])
  \/ exists pg,
       ElPaisScraper.opinion b = ElPaisScraper.Reply pg
       /\ ElPaisScraper.scrape_run b
          = fold_left (ElPaisScraper.scrape_step b)
              (ElPaisScraper.get_article_links pg ElPaisScraper.NUM_ARTICLES)
              ([], []).
Proof.
  unfold ElPaisScraper.scrape_run.
  destruct (ElPaisScraper.opinion b) as [pg|]; [|now left].
  destruct (ElPaisScraper.get_article_links pg ElPaisScraper.NUM_ARTICLES)
    eqn:E; [now left|].
  right. exists pg. rewrite E. split; reflexivity.
Qed.

Lemma scraped_article_fields (visit : string -> ElPaisScraper.reply
                                                  ElPaisScraper.page)
    (link : string) (a : ElPaisScraper.article_data) :
  ElPaisScraper.scrape_article visit link = Some a ->
  ElPaisScraper.url a = link
  /\ ElPaisScraper.title a <> ""
  /\ ((forall pg, visit link = ElPaisScraper.Reply pg ->
                  ElPaisScraper.stable_texts pg) ->
      ElPaisScraper.content a <> "")
  /\ forall src,
       ElPaisScraper.image_url a = Some src ->
       src <> "" /\ ElPaisScraper.contains "http" src = true.
Proof.
  unfold ElPaisScraper.scrape_article.
  destruct (visit link) as [pg|]; [|discriminate].
  intros [= <-].
  cbn [ElPaisScraper.url ElPaisScraper.title ElPaisScraper.content
       ElPaisScraper.image_url].
  unfold ElPaisScraper._extract_title, ElPaisScraper._extract_content,
    ElPaisScraper._extract_image.
  split; [reflexivity|]. split; [apply first_title_ok|].
  split; [intros Stable; apply first_content_ok, (Stable pg eq_refl)|].
  intros src. apply first_image_ok.
Qed.

(** X16: [scrape_all] returns at most five articles; their addresses are
    distinct links of the opinion page, each with "/opinion/2026" in it,
    in the order of the links; every article has a non-empty title, and an
    image address, when there is one, contains "http"; its content is not
    empty when the elements of its page have the same text each time it is
    read. *)
Theorem scrape_all_articles (b : ElPaisScraper.browser) :
  List.length (ElPaisScraper.scrape_all b) <= 5
  /\ NoDup (map ElPaisScraper.url (ElPaisScraper.scrape_all b))
  /\ (forall pg,
        ElPaisScraper.opinion b = ElPaisScraper.Reply pg ->
        map ElPaisScraper.url (ElPaisScraper.scrape_all b)
        = filter (ElPaisScraper.loads b)
            (ElPaisScraper.get_article_links pg ElPaisScraper.NUM_ARTICLES))
  /\ forall a,
       In a (ElPaisScraper.scrape_all b) ->
       ElPaisScraper.contains ElPaisScraper.opinion_marker
         (ElPaisScraper.url a) = true
       /\ ElPaisScraper.title a <> ""
       /\ ((forall pg,
              ElPaisScraper.visit b (ElPaisScraper.url a)
              = ElPaisScraper.Reply pg ->
              ElPaisScraper.stable_texts pg) ->
           ElPaisScraper.content a <> "")
       /\ forall src,
            ElPaisScraper.image_url a = Some src ->
            src <> "" /\ ElPaisScraper.contains "http" src = true.
Proof.
  assert (Order : forall pg,
            ElPaisScraper.opinion b = ElPaisScraper.Reply pg ->
            map ElPaisScraper.url (ElPaisScraper.scrape_all b)
            = filter (ElPaisScraper.loads b)
                (ElPaisScraper.get_article_links pg
                   ElPaisScraper.NUM_ARTICLES)).
  { intros pg Hpg.
    unfold ElPaisScraper.scrape_all, ElPaisScraper.scrape_run.
    rewrite Hpg.
    destruct (ElPaisScraper.get_article_links pg ElPaisScraper.NUM_ARTICLES)
      as [|l ls] eqn:E; [reflexivity|].
    rewrite scrape_fold. cbn [fst app]. apply scraped_urls. }
  unfold ElPaisScraper.scrape_all in *.
  destruct (scrape_run_cases b) as [E|[pg [Hpg E]]].
  - rewrite E in *. simpl.
    repeat split; try constructor; try lia; try contradiction.
    exact Order.
  - specialize (Order pg Hpg). rewrite E in *. clear E.
    rewrite scrape_fold in *. cbn [fst app] in *.
    destruct (article_links_invariant pg ElPaisScraper.NUM_ARTICLES)
      as [ND [L I]].
    set (links := ElPaisScraper.get_article_links pg
                    ElPaisScraper.NUM_ARTICLES) in *.
    split; [|split; [|split]].
    + rewrite <- (length_map ElPaisScraper.url), scraped_urls.
      pose proof (filter_length_le (ElPaisScraper.loads b) links).
      unfold ElPaisScraper.NUM_ARTICLES in L. lia.
    + rewrite scraped_urls. now apply NoDup_filter.
    + intros pg' Hpg'. rewrite Hpg in Hpg'. injection Hpg' as <-.
      exact Order.
    + intros a Ia. apply in_flat_map in Ia as [link [Il Ia]].
      destruct (ElPaisScraper.scrape_article (ElPaisScraper.visit b) link)
        as [a'|] eqn:S; [|contradiction].
      destruct Ia as [<-|[]].
      destruct (scraped_article_fields _ _ _ S) as [U [T [C Img]]].
      rewrite U. destruct (I link Il) as [_ [M _]]. auto.
Qed.

Lemma scrape_all_articles_witness :
  map ElPaisScraper.url (ElPaisScraper.scrape_all ElPaisScraper.sample_browser)
  = ["https://elpais.com/opinion/2026-01-02/a.html"].
Proof.
  apply (proj1 (proj2 (proj2
           (scrape_all_articles ElPaisScraper.sample_browser)))
           ElPaisScraper.sample_page).
  reflexivity.
Defined.

Lemma length_sanitized_name (text : string) :
  String.length
    (Utils.sanitize_filename text Utils.default_filename_length ++ ".jpg")
  <= 104.
Proof.
  rewrite length_append. simpl.
  pose proof (proj2 (sanitized_length text Utils.default_filename_length)).
  unfold Utils.default_filename_length in *. lia.
Qed.

(** X17: every image download that [scrape_all] asks for belongs to an
    article it returns: the address is the image address of that article
    and the file name is the sanitized title followed by ".jpg", so at
    most 104 characters long. *)
Theorem scrape_all_downloads (b : ElPaisScraper.browser)
    (d : ElPaisScraper.download) :
  In d (snd (ElPaisScraper.scrape_run b)) ->
  exists a,
    In a (ElPaisScraper.scrape_all b)
    /\ ElPaisScraper.image_url a = Some (ElPaisScraper.image_address d)
    /\ ElPaisScraper.file_name d
       = (Utils.sanitize_filename (ElPaisScraper.title a)
            Utils.default_filename_length ++ ".jpg")%string
    /\ String.length (ElPaisScraper.file_name d) <= 104.
Proof.
  unfold ElPaisScraper.scrape_all.
  destruct (scrape_run_cases b) as [->|[pg [_ ->]]]; [contradiction|].
  rewrite scrape_fold. cbn [fst snd app].
  intros Id. apply in_flat_map in Id as [link [Il Id]].
  destruct (ElPaisScraper.scrape_article (ElPaisScraper.visit b) link)
    as [a|] eqn:S; [|contradiction].
  destruct (ElPaisScraper.image_url a) as [src|] eqn:Img; [|contradiction].
  destruct (String.eqb src ""); [contradiction|].
  destruct Id as [<-|[]]. exists a.
  cbn [ElPaisScraper.image_address ElPaisScraper.file_name].
  split; [|split; [exact Img | split; [reflexivity|]]].
  - apply in_flat_map. exists link. split; [exact Il|].
    rewrite S. now left.
  - apply length_sanitized_name.
Qed.

Lemma scrape_all_downloads_witness :
  exists a,
    In a (ElPaisScraper.scrape_all ElPaisScraper.sample_browser)
    /\ ElPaisScraper.image_url a = Some "https://img.elpais.com/a.jpg"
    /\ "Un_titulo_el_fin.jpg"
       = (Utils.sanitize_filename (ElPaisScraper.title a)
            Utils.default_filename_length ++ ".jpg")%string
    /\ String.length "Un_titulo_el_fin.jpg" <= 104.
Proof.
  apply (scrape_all_downloads ElPaisScraper.sample_browser
           {| ElPaisScraper.image_address := "https://img.elpais.com/a.jpg";
              ElPaisScraper.file_name := "Un_titulo_el_fin.jpg" |}).
  vm_compute. now left.
Defined.

Example test_table_row :
  WordAnalyzer.table_row ("the", 4%Z) = "the                           4"
  /\ WordAnalyzer.table_row ("averyveryverylongwordindeed", 12345678901%Z)
     = "averyveryverylongwordindeed 12345678901"
  /\ WordAnalyzer.table_row ("the", (-5)%Z)
     = "the                          -5"
  /\ WordAnalyzer.str_of_int 0 = "0".
Proof. vm_compute. auto. Qed.

(** ** A service that is down *)

Lemma calls_fail_always {St : Type} (self : ArticleTranslator.t St) :
  (forall st text src dest,
     snd (ArticleTranslator.translator self st text src dest) = None) ->
  forall text n st, ArticleTranslator.calls_fail self text n st = true.
Proof.
  intros Down text n. induction n as [|n IH]; intros st; simpl;
    [reflexivity|].
  specialize (Down st text (ArticleTranslator.source_lang self)
                (ArticleTranslator.target_lang self)).
  destruct (ArticleTranslator.translator self st text
              (ArticleTranslator.source_lang self)
              (ArticleTranslator.target_lang self)) as [st' [tr|]];
    [discriminate | apply IH].
Qed.

Lemma translate_titles_down {St : Type} (self : ArticleTranslator.t St) :
  (forall st text src dest,
     snd (ArticleTranslator.translator self st text src dest) = None) ->
  forall titles st,
    snd (ArticleTranslator.translate_titles self titles st) = titles.
Proof.
  intros Down titles. induction titles as [|t ts IH]; intros st;
    [reflexivity|].
  rewrite translate_titles_cons. cbn [snd]. rewrite IH. f_equal.
  apply translate_text_all_fail. now apply calls_fail_always.
Qed.

(** X18: when every call of the translation service raises,
    [get_translated_headers] gives every title as its own translation. *)
Theorem get_translated_headers_service_down {St : Type}
    (self : ArticleTranslator.t St)
    (articles : list ArticleTranslator.article) (st : St) :
  (forall st' text src dest,
     snd (ArticleTranslator.translator self st' text src dest) = None) ->
  map ArticleTranslator.translated
    (snd (ArticleTranslator.get_translated_headers self articles st))
  = map ArticleTranslator.original
      (snd (ArticleTranslator.get_translated_headers self articles st)).
Proof.
  intros Down.
  unfold ArticleTranslator.get_translated_headers.
  destruct (get_translated_headers_acc self articles st [] [] eq_refl)
    as [_ [H2 H3]].
  rewrite H2, H3. simpl.
  apply (translate_titles_down self Down).
Qed.

Lemma get_translated_headers_service_down_witness :
  map ArticleTranslator.translated
    (snd (ArticleTranslator.get_translated_headers
            ArticleTranslator.unreachable
            [[("url", "u1"); ("title", "Hola mundo")]; [("url", "u2")]] 0))
  = map ArticleTranslator.original
      (snd (ArticleTranslator.get_translated_headers
              ArticleTranslator.unreachable
              [[("url", "u1"); ("title", "Hola mundo")]; [("url", "u2")]] 0)).
Proof.
  apply get_translated_headers_service_down. reflexivity.
Defined.

(** ** The printed table *)




